(** * polars_utils: column mapper and column mover

    A shallow embedding of [src/mappings/move_col.py] and
    [src/mappings/map_col.py], with the properties of the specification
    stated against it.

    The two modules are thin wrappers over the polars dataframe library.
    The wrappers themselves ([move_col], [map_col] and its five helpers) are
    transcribed statement by statement; the polars and Python primitives
    they call are modelled in the sections [Python lists] and [Host
    library], each with the behaviour its documentation gives for the
    arguments the wrappers pass.  The code calls [Expr.map_dict],
    [Expr.apply] and [Series.map_elements], which coexist in polars 0.19 and
    0.20; the model follows those releases, on a 64-bit build of Python.  A
    cell is any Python value; of the library's column data types the model
    has what the mapper's results depend on (the type inferred for the
    results of a function, for integers and strings), and the properties
    say where they need cells, keys or results of one data type. *)

From Stdlib Require Import ZArith Ascii String List Lia.
From stdpp Require Import base option list countable gmap strings.

Local Open Scope string_scope.
Local Open Scope Z_scope.
Local Open Scope list_scope.

(** ** Python values *)

(** The values that appear in cells, as dictionary keys and values, and as
    arguments and results of a mapping function.  [VNone] is Python's [None],
    which is also how a polars null (missing cell) is seen from Python.
    [VStruct names vals] is the record (a Python dict with the given field
    order) that [pl.struct] packs out of one row. *)
Unset Elimination Schemes.
Inductive pyval : Type :=
| VNone
| VInt (z : Z)
| VStr (s : string)
| VList (l : list pyval)
| VStruct (names : list string) (vals : list pyval).
Set Elimination Schemes.

(** Induction principle that reaches the values nested in sequences. *)
Fixpoint pyval_nested_ind (P : pyval → Prop)
    (HNone : P VNone) (HInt : ∀ z, P (VInt z)) (HStr : ∀ s, P (VStr s))
    (HList : ∀ l, Forall P l → P (VList l))
    (HStruct : ∀ names vals, Forall P vals → P (VStruct names vals))
    (v : pyval) {struct v} : P v :=
  let rec := pyval_nested_ind P HNone HInt HStr HList HStruct in
  let all := fix all (l : list pyval) : Forall P l :=
    match l with
    | [] => Forall_nil_2 P
    | x :: l' => Forall_cons_2 P x l' (rec x) (all l')
    end in
  match v with
  | VNone => HNone
  | VInt z => HInt z
  | VStr s => HStr s
  | VList l => HList l (all l)
  | VStruct names vals => HStruct names vals (all vals)
  end.

Module PyvalCode.
(** An injection of [pyval] into stdpp's generic trees, from which
    decidable equality and countability (needed for dictionary keys)
    follow. *)
Definition leaf : Type := (unit + Z + string)%type.

Fixpoint to_tree (v : pyval) : gen_tree leaf :=
  match v with
  | VNone => GenLeaf (inl (inl tt))
  | VInt z => GenLeaf (inl (inr z))
  | VStr s => GenLeaf (inr s)
  | VList l => GenNode 0 (map to_tree l)
  | VStruct names vals =>
      GenNode 1 [GenNode 2 (map (λ s, GenLeaf (inr s)) names);
                 GenNode 3 (map to_tree vals)]
  end.

Definition leaf_name (t : gen_tree leaf) : string :=
  match t with GenLeaf (inr s) => s | _ => EmptyString end.

Fixpoint of_tree (t : gen_tree leaf) : pyval :=
  match t with
  | GenLeaf (inl (inl _)) => VNone
  | GenLeaf (inl (inr z)) => VInt z
  | GenLeaf (inr s) => VStr s
  | GenNode 0 ts => VList (map of_tree ts)
  | GenNode 1 [GenNode 2 ns; GenNode 3 ts] =>
      VStruct (map leaf_name ns) (map of_tree ts)
  | GenNode _ _ => VNone
  end.

Lemma names_roundtrip (names : list string) :
  map leaf_name (map (λ s, GenLeaf (inr s)) names) = names.
Proof. induction names as [|s names IH]; simpl; [done | by rewrite IH]. Qed.

Lemma map_roundtrip (l : list pyval) :
  Forall (λ v, of_tree (to_tree v) = v) l →
  map of_tree (map to_tree l) = l.
Proof. induction 1 as [|v l Hv _ IH]; simpl; [done | by rewrite Hv, IH]. Qed.

Lemma of_to_tree (v : pyval) : of_tree (to_tree v) = v.
Proof.
  induction v as [| | |l IH|names vals IH] using pyval_nested_ind; simpl; try done.
  - by rewrite map_roundtrip.
  - by rewrite names_roundtrip, map_roundtrip.
Qed.
End PyvalCode.

Global Instance pyval_eq_dec : EqDecision pyval.
Proof.
  intros x y.
  destruct (decide (PyvalCode.to_tree x = PyvalCode.to_tree y)) as [E|N].
  - left. rewrite <- (PyvalCode.of_to_tree x), <- (PyvalCode.of_to_tree y).
    by rewrite E.
  - right. intros ->. by apply N.
Defined.

Global Instance pyval_countable : Countable pyval :=
  inj_countable' PyvalCode.to_tree PyvalCode.of_tree PyvalCode.of_to_tree.

(** ** Exceptions *)

(** The exception classes that can leave the two wrappers.  [ValueError]
    and [NotImplementedError] are raised by [map_col.py] itself; the others
    come out of the Python and polars operations it calls.  [IndexError]
    stands for an out-of-bounds index into a sequence, [OverflowError] is
    raised for an index that does not fit a machine word.  In the vocabulary
    of the specification, ValueError is the InvalidArgument error,
    NotImplementedError the NotImplemented error and IndexError the
    IndexOutOfRange error; no exception of the code is a ShapeMismatch. *)
Inductive exn : Type :=
| ValueError
| NotImplementedError
| IndexError
| TypeError
| KeyError
| ColumnNotFoundError
| DuplicateError
| ComputeError
| OverflowError.

Global Instance exn_eq_dec : EqDecision exn.
Proof. solve_decision. Defined.

(** A computation that returns a value or raises. *)
Inductive result (A : Type) : Type :=
| Ok (a : A)
| Raise (e : exn).
Global Arguments Ok {A} a.
Global Arguments Raise {A} e.

Global Instance result_ret : MRet result := λ A a, Ok a.
Global Instance result_bind : MBind result := λ A B f r,
  match r with Ok a => f a | Raise e => Raise e end.
Global Instance result_fmap : FMap result := λ A B f r,
  match r with Ok a => Ok (f a) | Raise e => Raise e end.

(** ** Python lists *)

(** [PY_SSIZE_T_MAX] of a 64-bit build, 2^63 - 1: the largest size of a
    list and the largest index. *)
Definition PY_SSIZE_T_MAX : Z := 9223372036854775807.

(** The index argument of a list method is converted to a [Py_ssize_t]
    before anything else is done: a Python integer outside
    [-2^63 .. 2^63 - 1] does not fit. *)
Definition fits_ssize_t (i : Z) : bool :=
  (- PY_SSIZE_T_MAX - 1 <=? i) && (i <=? PY_SSIZE_T_MAX).

Section py_list.
Context {A : Type}.

(** The failure of that conversion, on a list [l].  (A list of more than
    [PY_SSIZE_T_MAX] items stands for no Python list; the model leaves the
    index of such a list unconverted.) *)
Definition index_overflows (l : list A) (i : Z) : bool :=
  (Z.of_nat (length l) <=? PY_SSIZE_T_MAX) && negb (fits_ssize_t i).

(** [l.pop(i)]: an index that does not fit a [Py_ssize_t] raises
    OverflowError; a negative index counts from the end; an index outside
    [-len(l) <= i < len(l)] raises IndexError.  Returns the popped item
    and the list that remains. *)
Definition list_pop (l : list A) (i : Z) : result (A * list A) :=
  if index_overflows l i then Raise OverflowError
  else
    let n := Z.of_nat (length l) in
    let k := if i <? 0 then i + n else i in
    if (k <? 0) || (n <=? k) then Raise IndexError
    else match l !! Z.to_nat k with
         | Some x => Ok (x, delete (Z.to_nat k) l)
         | None => Raise IndexError
         end.

(** [l.insert(i, x)]: an index that does not fit a [Py_ssize_t] raises
    OverflowError; a negative index counts from the end, and the position
    is clamped into [0 .. len(l)]. *)
Definition list_insert (l : list A) (i : Z) (x : A) : result (list A) :=
  if index_overflows l i then Raise OverflowError
  else
    let n := Z.of_nat (length l) in
    let k := if i <? 0 then Z.max 0 (i + n) else Z.min i n in
    Ok (take (Z.to_nat k) l ++ x :: drop (Z.to_nat k) l).
End py_list.

(** [v[i]] for [i] in [range(..)], so [i] is never negative: an item of a
    sequence, a character of a string; out of bounds raises IndexError; a
    record has no integer keys; [None] and numbers are not subscriptable. *)
Definition getitem (v : pyval) (i : nat) : result pyval :=
  match v with
  | VList l => match l !! i with Some x => Ok x | None => Raise IndexError end
  | VStr s =>
      match String.get i s with
      | Some c => Ok (VStr (String c EmptyString))
      | None => Raise IndexError
      end
  | VStruct _ _ => Raise KeyError
  | VNone | VInt _ => Raise TypeError
  end.

(** ** Host library: frames *)

(** A polars DataFrame: named columns in order, each a sequence of cells. *)
Definition DataFrame : Type := list (string * list pyval).

(** [df.height]: the number of rows. *)
Definition df_height (df : DataFrame) : nat :=
  match df with
  | [] => 0%nat
  | (_, c) :: _ => length c
  end.

(** What the library guarantees of every frame it hands out: column names
    are unique and all columns have the same number of rows. *)
Definition df_wf (df : DataFrame) : Prop :=
  NoDup df.*1 ∧ Forall (λ c, length c.2 = df_height df) df.

(** [df.columns]: a fresh list of the column names, in order. *)
Definition df_columns (df : DataFrame) : list string := df.*1.

(** The column of a given name, if any. *)
Fixpoint df_lookup (df : DataFrame) (name : string) : option (list pyval) :=
  match df with
  | [] => None
  | (n, c) :: df' => if decide (n = name) then Some c else df_lookup df' name
  end.

(** [df[name]]. *)
Definition df_get_column (df : DataFrame) (name : string) : result (list pyval) :=
  match df_lookup df name with
  | Some c => Ok c
  | None => Raise ColumnNotFoundError
  end.

(** [df.select(names)] for a list of column names: the named columns, in the
    order given.  A name that is not a column raises ColumnNotFoundError, a
    name given twice raises DuplicateError.  The columns' data is taken over
    as it is. *)
Fixpoint select_columns (df : DataFrame) (names : list string) : result DataFrame :=
  match names with
  | [] => Ok []
  | n :: names' =>
      c ← df_get_column df n;
      rest ← select_columns df names';
      Ok ((n, c) :: rest)
  end.

Definition df_select (df : DataFrame) (names : list string) : result DataFrame :=
  if decide (NoDup names) then select_columns df names else Raise DuplicateError.

(** ** move_col.py *)

(** [move_col(df, col_from_id, col_to_id)]:
    <<
      columns: list = df.columns
      last_col = columns.pop(col_from_id)
      columns.insert(col_to_id, last_col)
      return df.select(columns)
    >> *)
Definition move_col (df : DataFrame) (col_from_id col_to_id : Z) : result DataFrame :=
  let columns := df_columns df in
  '(last_col, columns) ← list_pop columns col_from_id;
  columns ← list_insert columns col_to_id last_col;
  df_select df columns.

(** ** Row processing *)

(** What happens to the cells of a frame while a call runs, in order:
    a cell looked up in a remapping dictionary, or the mapping function
    called on a cell.  An empty trace means no row was processed. *)
Inductive event : Type :=
| Lookup (v : pyval)
| Call (v : pyval).

(** A computation of the column mapper: the row processing done so far,
    and the value returned or the exception raised. *)
Record exec (A : Type) : Type := Exec { trace : list event; outcome : result A }.
Global Arguments Exec {A} trace outcome.
Global Arguments trace {A} _.
Global Arguments outcome {A} _.

Global Instance exec_ret : MRet exec := λ A a, Exec [] (Ok a).
Global Instance exec_bind : MBind exec := λ A B f m,
  match outcome m with
  | Ok a => Exec (trace m ++ trace (f a)) (outcome (f a))
  | Raise e => Exec (trace m) (Raise e)
  end.

Global Instance exec_fmap : FMap exec := λ A B f m,
  Exec (trace m) (f <$> outcome m).

Definition lift {A} (r : result A) : exec A := Exec [] r.
Definition raise {A} (e : exn) : exec A := Exec [] (Raise e).
Definition tell (es : list event) : exec unit := Exec es (Ok tt).

(** ** Host library: expressions *)

(** An argument that should name columns: a [str], a [list] of [str], or
    something that is neither (such as [None] or a number). *)
Inductive colarg : Type :=
| Name (s : string)
| Names (l : list string)
| NoName.

(** The polars expressions the mapper builds.  Building one processes no
    row; [with_columns] evaluates it. *)
Inductive Expr : Type :=
| Col (names : list string)
| Struct (names : list string)
| MapDict (e : Expr) (remapping : gmap pyval pyval) (default : pyval)
| Apply (e : Expr) (function : pyval → pyval)
| Alias (e : Expr) (name : string)
| Series (name : string) (values : list pyval).

(** [pl.col(name)]: one column, or the columns of a list of names; an
    argument that is neither is refused with a TypeError.  The library reads
    the name ["*"] as all columns and a name of the form [^...$] as a regular
    expression; the model takes every name as the name of one column, and
    is the library's [pl.col] on the names for which [plain_name] holds. *)
Definition pl_col (name : colarg) : result Expr :=
  match name with
  | Name s => Ok (Col [s])
  | Names l => Ok (Col l)
  | NoName => Raise TypeError
  end.

(** [expr.alias(name: str)]: the name must be a [str]; the call refuses
    anything else with a TypeError, when the expression is built and before
    any frame is involved. *)
Definition alias (e : Expr) (name : colarg) : result Expr :=
  match name with
  | Name s => Ok (Alias e s)
  | Names _ | NoName => Raise TypeError
  end.

(** [expr.map_dict(remapping, default=default)] on one cell: the entry of
    the dictionary, [default] where there is none ("value to use when the
    remapping dict does not contain the mapping for a value").  A null cell
    is looked up under the key [None] like any other.  The library first
    converts the keys to the data type of the column and the default to the
    data type of the dictionary's values, and fails where it cannot; the
    model makes no conversion, and is the library's [map_dict] where none
    is needed: keys of the column's data type, a default of the values'. *)
Definition remap (remapping : gmap pyval pyval) (default : pyval) (v : pyval) : pyval :=
  match remapping !! v with
  | Some w => w
  | None => default
  end.

(** [expr.apply(function)] and [series.map_elements(function)] on one cell.
    Both are declared with the keyword [skip_nulls=True] ("nulls will be
    skipped and not passed to the python function"), and the mapper passes
    only [function]: a null is not handed to the function and stays null. *)
Definition apply_elem (function : pyval → pyval) (v : pyval) : pyval :=
  match v with
  | VNone => VNone
  | _ => function v
  end.

Definition is_null (v : pyval) : bool :=
  match v with VNone => true | _ => false end.

(** The calls of the function that mapping it over a column makes. *)
Definition calls (c : list pyval) : list event :=
  map Call (filter (λ v, is_null v = false) c).

(** The data types of the cells that the properties below speak of:
    64-bit integers and strings. *)
Inductive dtype : Type :=
| Int64
| Utf8.

Definition fits_int64 (z : Z) : bool :=
  (-9223372036854775808 <=? z) && (z <=? 9223372036854775807).

(** A Python value that can be stored as it is in a column of the given
    data type. *)
Definition fits_dtype (t : dtype) (v : pyval) : bool :=
  match t, v with
  | Int64, VInt z => fits_int64 z
  | Utf8, VStr _ => true
  | _, _ => false
  end.

(** The data type that [apply] and [map_elements], called without a
    [return_dtype], give to their results: that of the first result that is
    not [None], an [int] making it Int64 and a [str] Utf8.  (For results
    that are sequences or records the item types are not modelled.) *)
Definition inferred_dtype (results : list pyval) : option dtype :=
  match filter (λ v, is_null v = false) results with
  | VInt _ :: _ => Some Int64
  | VStr _ :: _ => Some Utf8
  | _ => None
  end.

(** A result that cannot be stored in a column of the inferred data type
    (a [str] after an [int], an [int] beyond 64 bits) is stored as null. *)
Definition conform (results : list pyval) : list pyval :=
  match inferred_dtype results with
  | Some t => map (λ v, if fits_dtype t v then v else VNone) results
  | None => results
  end.

(** The function mapped over a column. *)
Definition apply_column (function : pyval → pyval) (c : list pyval) : list pyval :=
  conform (map (apply_elem function) c).

(** [series.map_elements(function)].  On a column whose cells are all null,
    and so on one without rows, the function is never called and the
    library cannot tell the data type of the result: ComputeError. *)
Definition map_elements (c : list pyval) (function : pyval → pyval) : exec (list pyval) :=
  if forallb is_null c then raise ComputeError
  else Exec (calls c) (Ok (apply_column function c)).

(** The rows of the given columns packed into records, [height] of them. *)
Definition pack_rows (names : list string) (cs : list (list pyval)) (height : nat) : list pyval :=
  map (λ i, VStruct names (omap (λ c : list pyval, c !! i) cs)) (seq 0 height).

Definition named_column (df : DataFrame) (n : string) : result (string * list pyval) :=
  c ← df_get_column df n; Ok (n, c).

(** Evaluation of an expression on a frame: the columns it yields, each
    with its output name.  [apply] fails like [map_elements] on a column
    whose cells are all null.  [pl.struct] of no column at all is refused
    by the library (no property below depends on that case). *)
Fixpoint eval (df : DataFrame) (e : Expr) : exec (list (string * list pyval)) :=
  match e with
  | Col names => lift (mapM (named_column df) names)
  | Struct names =>
      match names with
      | [] => raise ComputeError
      | first :: _ =>
          if decide (NoDup names) then
            cols ← lift (mapM (named_column df) names);
            mret [(first, pack_rows names cols.*2 (df_height df))]
          else raise DuplicateError
      end
  | MapDict e remapping default =>
      cols ← eval df e;
      _ ← tell (map Lookup (concat cols.*2));
      mret (map (prod_map id (map (remap remapping default))) cols)
  | Apply e function =>
      cols ← eval df e;
      if forallb (λ c, negb (forallb is_null c)) cols.*2 then
        _ ← tell (concat (map calls cols.*2));
        mret (map (prod_map id (apply_column function)) cols)
      else raise ComputeError
  | Alias e name =>
      cols ← eval df e;
      mret (map (λ c : string * list pyval, (name, c.2)) cols)
  | Series name values => mret [(name, values)]
  end.

(** An ordered association of names to columns, as a frame's columns and
    as a Python dict keyed by name: setting a name that is present replaces
    its column where it stands, a new name goes to the end. *)
Fixpoint assoc_set (d : list (string * list pyval)) (name : string) (c : list pyval)
    : list (string * list pyval) :=
  match d with
  | [] => [(name, c)]
  | (n, c0) :: d' =>
      if decide (n = name) then (n, c) :: d'
      else (n, c0) :: assoc_set d' name c
  end.

Definition assoc_set_all (d news : list (string * list pyval)) : list (string * list pyval) :=
  foldl (λ acc nc, assoc_set acc nc.1 nc.2) d news.

Fixpoint eval_all (df : DataFrame) (exprs : list Expr) : exec (list (string * list pyval)) :=
  match exprs with
  | [] => mret []
  | e :: exprs' =>
      cols ← eval df e;
      rest ← eval_all df exprs';
      mret (cols ++ rest)
  end.

(** [df.with_columns(exprs)] ("added columns will replace existing columns
    with the same name"): the expressions are evaluated on [df]; two of them
    yielding the same name is a DuplicateError; each yielded column replaces
    the column of [df] with that name, in its place, or is added after the
    last column.  (The library also checks that a yielded column has the
    height of [df]; the mapper only yields columns computed row by row from
    a column of [df], which have it.) *)
Definition with_columns (df : DataFrame) (exprs : list Expr) : exec DataFrame :=
  cols ← eval_all df exprs;
  if decide (NoDup cols.*1) then mret (assoc_set_all df cols)
  else raise DuplicateError.

(** ** map_col.py *)

(** The [mapping] argument: a [dict], a callable, or neither. *)
Inductive rule : Type :=
| Dict (dictionary : gmap pyval pyval)
| Callable (function : pyval → pyval)
| NoRule.

(** What [map_col] returns: a frame, or [None] when the end of its body is
    reached without a [return]. *)
Inductive returned : Type :=
| Frame (df : DataFrame)
| PyNone.

(** [_map_col_dict]:
    <<
      return df.with_columns(
          pl.col(col_name).map_dict(dictionary, default=default).alias(new_col_name))
    >> *)
Definition _map_col_dict (df : DataFrame) (col_name new_col_name : colarg)
    (dictionary : gmap pyval pyval) (default : pyval) : exec DataFrame :=
  e ← lift (pl_col col_name);
  e ← lift (alias (MapDict e dictionary default) new_col_name);
  with_columns df [e].

(** [_map_1to1_function]:
    <<
      return df.with_columns(pl.col(col_name).apply(function).alias(new_col_name))
    >> *)
Definition _map_1to1_function (df : DataFrame) (col_name new_col_name : string)
    (function : pyval → pyval) : exec DataFrame :=
  e ← lift (pl_col (Name col_name));
  e ← lift (alias (Apply e function) (Name new_col_name));
  with_columns df [e].

(** The dict comprehension of [_map_1ton_function], one key per index of
    [range(len(new_col_names))]:
    <<
      {new_col_names[i]: [res[i] for res in results] for i in range(len(new_col_names))}
    >> *)
Fixpoint new_columns_from (new_col_names : list string) (results : list pyval)
    (range : list nat) (d : list (string * list pyval))
    : result (list (string * list pyval)) :=
  match range with
  | [] => Ok d
  | i :: range' =>
      match new_col_names !! i with
      | Some name =>
          values ← mapM (λ res, getitem res i) results;
          new_columns_from new_col_names results range' (assoc_set d name values)
      | None => Raise IndexError
      end
  end.

(** [_map_1ton_function]:
    <<
      results = df[col_name].map_elements(function)
      new_columns = {new_col_names[i]: [res[i] for res in results] for i in range(len(new_col_names))}
      return df.with_columns([pl.Series(name, values) for name, values in new_columns.items()])
    >> *)
Definition _map_1ton_function (df : DataFrame) (col_name : string)
    (new_col_names : list string) (function : pyval → pyval) : exec DataFrame :=
  c ← lift (df_get_column df col_name);
  results ← map_elements c function;
  new_columns ← lift (new_columns_from new_col_names results
                        (seq 0 (length new_col_names)) []);
  with_columns df (map (λ nv : string * list pyval, Series nv.1 nv.2) new_columns).

(** [_map_nto1_function]:
    <<
      return df.with_columns(pl.struct(col_names).apply(function).alias(new_col_name))
    >> *)
Definition _map_nto1_function (df : DataFrame) (col_names : list string)
    (new_col_name : string) (function : pyval → pyval) : exec DataFrame :=
  e ← lift (alias (Apply (Struct col_names) function) (Name new_col_name));
  with_columns df [e].

(** [_map_ntom_function]: [raise NotImplementedError]. *)
Definition _map_ntom_function (df : DataFrame) (col_names new_col_names : list string)
    (function : pyval → pyval) : exec DataFrame :=
  raise NotImplementedError.

(** [map_col(df, map_from, map_to, mapping, default=None)]: the dispatch on
    [isinstance(mapping, dict)], [callable(mapping)], and on [map_from] and
    [map_to] being a [str] or a [list].  The [if]/[elif] chains have no
    [else]: where none applies the function ends and returns [None]. *)
Definition map_col (df : DataFrame) (map_from map_to : colarg) (mapping : rule)
    (default : pyval) : exec returned :=
  match mapping with
  | Dict dictionary =>
      match map_from with
      | Names _ => raise ValueError
      | _ => Frame <$> _map_col_dict df map_from map_to dictionary default
      end
  | Callable function =>
      match map_from with
      | Name col_name =>
          match map_to with
          | Name new_col_name =>
              Frame <$> _map_1to1_function df col_name new_col_name function
          | Names new_col_names =>
              Frame <$> _map_1ton_function df col_name new_col_names function
          | NoName => mret PyNone
          end
      | Names col_names =>
          match map_to with
          | Name new_col_name =>
              Frame <$> _map_nto1_function df col_names new_col_name function
          | Names new_col_names =>
              Frame <$> _map_ntom_function df col_names new_col_names function
          | NoName => mret PyNone
          end
      | NoName => mret PyNone
      end
  | NoRule => mret PyNone
  end.

(** ** Vocabulary of the properties *)

(** The dispatch policy of the specification (section 4.1): the mode, 1 to
    5, that a combination of arguments selects; none for "any other
    combination". *)
Definition spec_mode (map_from map_to : colarg) (mapping : rule) : option nat :=
  match mapping, map_from, map_to with
  | Dict _, _, _ => Some 1%nat
  | Callable _, Name _, Name _ => Some 2%nat
  | Callable _, Name _, Names _ => Some 3%nat
  | Callable _, Names _, Name _ => Some 4%nat
  | Callable _, Names _, Names _ => Some 5%nat
  | _, _, _ => None
  end.

(** A name that [pl.col] and [pl.struct] read as the name of one column:
    not the wildcard ["*"] and not a regular expression [^...$]. *)
Fixpoint last_char (s : string) : option ascii :=
  match s with
  | EmptyString => None
  | String c EmptyString => Some c
  | String _ s' => last_char s'
  end.

Definition plain_name (s : string) : bool :=
  negb (String.eqb s "*") &&
  negb (match s with
        | String c _ =>
            Ascii.eqb c "^"%char && bool_decide (last_char s = Some "$"%char)
        | EmptyString => false
        end).

(** A cell of the given data type. *)
Definition has_dtype (t : dtype) (v : pyval) : Prop := fits_dtype t v = true.

(** A result of the mapping function whose items, if it is a sequence,
    all have the given data type. *)
Definition items_have_dtype (t : dtype) (res : pyval) : Prop :=
  match res with
  | VList l => Forall (has_dtype t) l
  | _ => True
  end.

(** The position-[k] insertion of the specification: [x] ends up at index
    [k] of the result, the items of [l] keep their order around it. *)
Definition insert_at {A} (k : nat) (x : A) (l : list A) : list A :=
  take k l ++ x :: drop k l.

(** Every column of [sel] is the column of [df] with the same name. *)
Definition columns_of (df sel : DataFrame) : Prop :=
  Forall (λ nc, df_lookup df nc.1 = Some nc.2) sel.

(** A result of the mapping function that is a sequence, and its length. *)
Definition is_seq (v : pyval) : Prop :=
  match v with VList _ => True | _ => False end.

Definition seq_length (v : pyval) : nat :=
  match v with VList l => length l | _ => 0%nat end.

(** [res[i]] where it is defined. *)
Definition item (i : nat) (res : pyval) : pyval :=
  match getitem res i with Ok x => x | Raise _ => VNone end.

(** ** Example frames *)

(** Four columns of two rows. *)
Definition ABCD : DataFrame :=
  [("A", [VInt 1; VInt 2]); ("B", [VStr "x"; VStr "y"]);
   ("C", [VNone; VInt 0]); ("D", [VInt 7; VInt 8])].

(** A frame whose first column already has the target name ["b"], and a
    remapping dictionary. *)
Definition BA : DataFrame :=
  [("b", [VInt 1; VInt 2]); ("a", [VInt 1; VInt 5])].

Definition ten : gmap pyval pyval := {[ VInt 1 := VInt 10 ]}.

(** A column with a null, and a function that is defined on [None]. *)
Definition with_null : DataFrame := [("a", [VInt 1; VNone])].

Definition seven (v : pyval) : pyval := VInt 7.

(** A single column, and functions with three results and one result per
    row. *)
Definition AB12 : DataFrame := [("a", [VInt 1; VInt 2])].

Definition thrice (v : pyval) : pyval := VList [v; v; v].

Definition once (v : pyval) : pyval := VList [v].

(** The functions of the specification's examples for the 1-to-N and
    M-to-1 modes: [f(x) = (x, x*2)] and [f({a,b}) = a+b]. *)
Definition double_pair (v : pyval) : pyval :=
  match v with VInt x => VList [VInt x; VInt (x * 2)] | _ => VNone end.

Definition add_fields (v : pyval) : pyval :=
  match v with VStruct _ [VInt x; VInt y] => VInt (x + y) | _ => VNone end.

(** [ABCD] with its first column moved to the end. *)
Definition BCDA : DataFrame :=
  [("B", [VStr "x"; VStr "y"]); ("C", [VNone; VInt 0]);
   ("D", [VInt 7; VInt 8]); ("A", [VInt 1; VInt 2])].

(** The cells of row [r] in the columns [names], in that order. *)
Definition df_row (df : DataFrame) (names : list string) (r : nat) : list pyval :=
  omap (λ n, df_lookup df n ≫= (λ c : list pyval, c !! r)) names.

(** The frame of the specification's M-to-1 example. *)
Definition A_B : DataFrame :=
  [("a", [VInt 1; VInt 2]); ("b", [VInt 10; VInt 20])].

(** A function of a record that always returns a value. *)
Definition sum_fields (v : pyval) : pyval :=
  match v with VStruct _ [VInt x; VInt y] => VInt (x + y) | _ => VInt 0 end.

(** * Properties *)

(** Case analysis on the integer comparisons of the goal. *)
Ltac zcases :=
  repeat match goal with
  | |- context [?a <? ?b] => destruct (Z.ltb_spec a b); try lia; cbv iota
  | |- context [?a <=? ?b] => destruct (Z.leb_spec a b); try lia; cbv iota
  end.

(** ** Python list operations *)

Lemma fits_ssize_t_true (i : Z) :
  fits_ssize_t i = true ↔ - PY_SSIZE_T_MAX - 1 ≤ i ≤ PY_SSIZE_T_MAX.
Proof. unfold fits_ssize_t. rewrite andb_true_iff, !Z.leb_le. lia. Qed.

Section py_list_facts.
Context {A : Type}.
Implicit Types (l : list A) (x : A) (i j : Z).

Lemma index_overflows_near l i :
  - Z.of_nat (length l) - 1 ≤ i ≤ Z.of_nat (length l) →
  index_overflows l i = false.
Proof.
  intros Hi. unfold index_overflows.
  destruct (Z.leb_spec (Z.of_nat (length l)) PY_SSIZE_T_MAX) as [Hl|Hl]; [|done].
  simpl. apply negb_false_iff, fits_ssize_t_true. lia.
Qed.

Lemma index_overflows_fits l i : fits_ssize_t i = true → index_overflows l i = false.
Proof. intros Hi. unfold index_overflows. rewrite Hi. apply andb_false_r. Qed.

Lemma index_overflows_unfit l i :
  Z.of_nat (length l) ≤ PY_SSIZE_T_MAX → fits_ssize_t i = false →
  index_overflows l i = true.
Proof.
  intros Hl Hi. unfold index_overflows. rewrite Hi.
  by rewrite (proj2 (Z.leb_le _ _) Hl).
Qed.

Lemma list_pop_in_range l i x :
  0 ≤ i →
  l !! Z.to_nat i = Some x →
  list_pop l i = Ok (x, delete (Z.to_nat i) l).
Proof.
  intros Hi Hx. unfold list_pop.
  pose proof (lookup_lt_Some _ _ _ Hx) as Hlt.
  rewrite index_overflows_near by lia.
  zcases. simpl. by rewrite Hx.
Qed.

Lemma list_pop_overflow l i :
  index_overflows l i = true → list_pop l i = Raise OverflowError.
Proof. intros Hi. unfold list_pop. by rewrite Hi. Qed.

Lemma list_pop_raises l i :
  index_overflows l i = false →
  list_pop l i = Raise IndexError ↔
  ¬ (- Z.of_nat (length l) ≤ i < Z.of_nat (length l)).
Proof.
  intros Hfit. unfold list_pop. rewrite Hfit.
  zcases; simpl; try (split; [lia | done]).
  - destruct (lookup_lt_is_Some_2 l (Z.to_nat (i + Z.of_nat (length l))))
      as [x ->]; [lia|]. split; [done | lia].
  - destruct (lookup_lt_is_Some_2 l (Z.to_nat i)) as [x ->]; [lia|].
    split; [done | lia].
Qed.

Lemma list_pop_inv l i r :
  list_pop l i = r →
  r = Raise IndexError ∨ r = Raise OverflowError ∨
  ∃ x l', r = Ok (x, l') ∧ x :: l' ≡ₚ l.
Proof.
  unfold list_pop. intros <-.
  destruct (index_overflows l i); [by right; left|].
  destruct (_ || _); [by left|].
  destruct (l !! _) as [y|] eqn:Hy; [|by left].
  right; right. eexists _, _. split; [done|].
  symmetry. by apply delete_Permutation.
Qed.

(** The three ways a pop can go. *)
Lemma list_pop_spec l i :
  (index_overflows l i = true ∧ list_pop l i = Raise OverflowError) ∨
  (index_overflows l i = false ∧
   ¬ (- Z.of_nat (length l) ≤ i < Z.of_nat (length l)) ∧
   list_pop l i = Raise IndexError) ∨
  (index_overflows l i = false ∧
   - Z.of_nat (length l) ≤ i < Z.of_nat (length l) ∧
   ∃ x l', list_pop l i = Ok (x, l') ∧ x :: l' ≡ₚ l ∧
           length l = S (length l')).
Proof.
  destruct (index_overflows l i) eqn:Hov.
  - left. split; [done|]. by apply list_pop_overflow.
  - right. pose proof (list_pop_raises l i Hov) as Hraise.
    destruct (list_pop_inv l i _ eq_refl)
      as [Hr|[Hr|(x & l' & Hr & Hperm)]].
    + left. split; [done|]. split; [by apply Hraise | done].
    + unfold list_pop in Hr. rewrite Hov in Hr.
      destruct (_ || _); [done|]. by destruct (l !! _).
    + right. split; [done|]. split.
      * destruct (decide (- Z.of_nat (length l) ≤ i < Z.of_nat (length l)))
          as [?|Hout]; [done|].
        apply Hraise in Hout. congruence.
      * exists x, l'. split; [done|]. split; [done|].
        by rewrite <- Hperm.
Qed.

Lemma list_insert_in_range l j x :
  0 ≤ j ≤ Z.of_nat (length l) →
  list_insert l j x = Ok (take (Z.to_nat j) l ++ x :: drop (Z.to_nat j) l).
Proof.
  intros Hj. unfold list_insert. rewrite index_overflows_near by lia.
  zcases. by rewrite Z.min_l by lia.
Qed.

Lemma list_insert_inv l j x r :
  list_insert l j x = r →
  r = Raise OverflowError ∨ ∃ l', r = Ok l' ∧ l' ≡ₚ x :: l.
Proof.
  unfold list_insert. intros <-.
  destruct (index_overflows l j); [by left|]. right.
  eexists. split; [done|].
  rewrite <- Permutation_middle. by rewrite take_drop.
Qed.

Lemma list_insert_fits l j x :
  index_overflows l j = false → ∃ l', list_insert l j x = Ok l'.
Proof. intros Hj. unfold list_insert. rewrite Hj. by eexists. Qed.

Lemma list_insert_overflow l j x :
  index_overflows l j = true → list_insert l j x = Raise OverflowError.
Proof. intros Hj. unfold list_insert. by rewrite Hj. Qed.

Lemma delete_take_insert l (k : nat) x :
  (k ≤ length l)%nat →
  delete k (take k l ++ x :: drop k l) = l.
Proof.
  intros Hk. revert k Hk.
  induction l as [|y l IH]; intros [|k] Hk; simpl in *; try done; try lia.
  f_equal. apply IH. lia.
Qed.

Lemma lookup_take_insert l (k : nat) x :
  (k ≤ length l)%nat →
  (take k l ++ x :: drop k l) !! k = Some x.
Proof.
  intros Hk. rewrite lookup_app_r; rewrite length_take, Nat.min_l by lia; [|lia].
  by rewrite Nat.sub_diag.
Qed.

Lemma take_insert_delete l (k : nat) x :
  l !! k = Some x →
  take k (delete k l) ++ x :: drop k (delete k l) = l.
Proof.
  revert k. induction l as [|y l IH]; intros [|k] Hk; simpl in *; try done.
  - by injection Hk as ->.
  - f_equal. by apply IH.
Qed.
End py_list_facts.

(** ** Frames *)

Lemma df_lookup_elem_of (df : DataFrame) n c :
  df_lookup df n = Some c → (n, c) ∈ df.
Proof.
  induction df as [|[n0 c0] df IH]; simpl; [done|].
  case_decide as E.
  - intros [= ->]. rewrite E. apply list_elem_of_here.
  - intros H. apply list_elem_of_further. by apply IH.
Qed.

Lemma df_lookup_None (df : DataFrame) n :
  df_lookup df n = None ↔ n ∉ df.*1.
Proof.
  induction df as [|[n0 c0] df IH]; simpl.
  - split; [intros _; apply not_elem_of_nil | done].
  - rewrite not_elem_of_cons. destruct (decide (n0 = n)) as [E|E].
    + split; [done | intros [? _]; congruence].
    + rewrite IH. split; [by intros ?; split; [congruence|] | by intros [_ ?]].
Qed.

Lemma df_lookup_is_Some (df : DataFrame) n :
  is_Some (df_lookup df n) ↔ n ∈ df.*1.
Proof.
  destruct (df_lookup df n) as [c|] eqn:E.
  - split; [intros _|by eauto].
    apply df_lookup_elem_of in E. by apply (list_elem_of_fmap_2 fst) in E.
  - apply df_lookup_None in E. split; [by intros [? ?] | done].
Qed.

Lemma columns_of_self (df : DataFrame) : NoDup df.*1 → columns_of df df.
Proof.
  unfold columns_of. induction df as [|[n0 c0] df IH]; simpl; [done|].
  intros [Hn0 Hnd]%NoDup_cons. constructor; simpl.
  - by rewrite decide_True.
  - specialize (IH Hnd). rewrite Forall_forall in IH |- *.
    intros [n c] Hin. simpl. rewrite decide_False; [by apply (IH (n, c))|].
    intros ->. apply Hn0. by apply (list_elem_of_fmap_2 fst) in Hin.
Qed.

Lemma columns_of_lookup (df sel : DataFrame) n :
  columns_of df sel → n ∈ sel.*1 → df_lookup sel n = df_lookup df n.
Proof.
  unfold columns_of. induction 1 as [|[n0 c0] sel H0 _ IH]; simpl.
  - by intros ?%elem_of_nil.
  - intros [->|Hin]%elem_of_cons.
    + by rewrite decide_True.
    + case_decide as E; [by subst | by apply IH].
Qed.

Lemma select_columns_of (df sel : DataFrame) :
  columns_of df sel → select_columns df sel.*1 = Ok sel.
Proof.
  unfold columns_of. induction 1 as [|[n0 c0] sel H0 _ IH]; csimpl in *; [done|].
  unfold df_get_column. rewrite H0. csimpl. by rewrite IH.
Qed.

Lemma select_columns_ok (df : DataFrame) names :
  names ⊆ df.*1 →
  ∃ sel, select_columns df names = Ok sel ∧ sel.*1 = names ∧ columns_of df sel.
Proof.
  induction names as [|n names IH]; intros Hsub.
  - exists []. repeat split. constructor.
  - destruct IH as (sel & Hsel & Hnames & Hcols); [set_solver|].
    destruct (proj2 (df_lookup_is_Some df n)) as [c Hc]; [set_solver|].
    exists ((n, c) :: sel). csimpl. unfold df_get_column. rewrite Hc. csimpl.
    rewrite Hsel. csimpl. repeat split; [by rewrite Hnames|].
    by constructor.
Qed.

Lemma select_columns_ext (df1 df2 : DataFrame) names :
  (∀ n, df_lookup df1 n = df_lookup df2 n) →
  select_columns df1 names = select_columns df2 names.
Proof.
  intros Hext. induction names as [|n names IH]; simpl; [done|].
  unfold df_get_column. by rewrite Hext, IH.
Qed.

Lemma columns_of_height (df sel : DataFrame) :
  df_wf df → columns_of df sel →
  Forall (λ c, length c.2 = df_height df) sel.
Proof.
  intros [_ Hh] Hsel. unfold columns_of in Hsel.
  rewrite Forall_forall in Hh, Hsel |- *. intros [n c] Hin.
  apply (Hh (n, c)). apply df_lookup_elem_of. by apply (Hsel (n, c)).
Qed.

Lemma df_wf_intro (df : DataFrame) h :
  NoDup df.*1 → Forall (λ c, length c.2 = h) df → df_wf df.
Proof.
  intros Hnd Hh. split; [done|].
  destruct df as [|[n c] df]; [done|]. simpl.
  pose proof (Forall_inv Hh) as Hc. simpl in Hc. by rewrite Hc.
Qed.

(** Selecting a rearrangement of all the column names of a frame. *)
Lemma df_select_Permutation (df : DataFrame) names :
  df_wf df → names ≡ₚ df_columns df →
  ∃ df', df_select df names = Ok df' ∧ df_columns df' = names ∧
         (∀ n, df_lookup df' n = df_lookup df n) ∧ df_wf df'.
Proof.
  intros Hwf Hperm. pose proof Hwf as [Hnd _].
  assert (NoDup names) as Hnd' by by rewrite Hperm.
  destruct (select_columns_ok df names) as (sel & Hsel & Hnames & Hcols).
  { unfold df_columns in Hperm. by rewrite Hperm. }
  exists sel. unfold df_select. rewrite decide_True by done.
  split; [done|]. split; [done|]. split.
  - intros n. destruct (decide (n ∈ names)) as [Hin|Hin].
    + apply columns_of_lookup; [done | by rewrite Hnames].
    + transitivity (@None (list pyval)); [|symmetry]; apply df_lookup_None.
      * by rewrite Hnames.
      * unfold df_columns in Hperm. by rewrite <- Hperm.
  - apply (df_wf_intro _ (df_height df)); [by rewrite Hnames|].
    by apply columns_of_height.
Qed.

Lemma df_select_self (df : DataFrame) :
  df_wf df → df_select df (df_columns df) = Ok df.
Proof.
  intros [Hnd _]. unfold df_select, df_columns.
  rewrite decide_True by done. by apply select_columns_of, columns_of_self.
Qed.

(** ** Column mover *)

(** The mover succeeds whenever the pop and the insert do. *)
Lemma move_col_popped (df : DataFrame) (i j : Z) name rest cols :
  df_wf df →
  list_pop (df_columns df) i = Ok (name, rest) →
  list_insert rest j name = Ok cols →
  ∃ df', move_col df i j = Ok df' ∧
         df_columns df' = cols ∧
         (∀ n, df_lookup df' n = df_lookup df n) ∧ df_wf df'.
Proof.
  intros Hwf Hpop Hins. unfold move_col. rewrite Hpop. csimpl.
  rewrite Hins. csimpl.
  apply df_select_Permutation; [done|].
  destruct (list_insert_inv _ _ _ _ Hins) as [?|(? & [= <-] & ->)]; [done|].
  by destruct (list_pop_inv _ _ _ Hpop) as [?|[?|(x & l' & [= <- <-] & Hperm)]].
Qed.

(** The ways a move can go. *)
Lemma move_col_inv (df : DataFrame) (i j : Z) :
  df_wf df →
  move_col df i j = Raise IndexError ∨
  move_col df i j = Raise OverflowError ∨
  ∃ name rest cols df',
    list_pop (df_columns df) i = Ok (name, rest) ∧
    list_insert rest j name = Ok cols ∧
    move_col df i j = Ok df' ∧
    df_columns df' = cols ∧
    (∀ n, df_lookup df' n = df_lookup df n) ∧ df_wf df'.
Proof.
  intros Hwf.
  destruct (list_pop_spec (df_columns df) i)
    as [[_ Hpop]|[(_ & _ & Hpop)|(_ & _ & name & rest & Hpop & _)]].
  - right; left. unfold move_col. by rewrite Hpop.
  - left. unfold move_col. by rewrite Hpop.
  - destruct (list_insert_inv rest j name _ eq_refl) as [Hins|(cols & Hins & _)].
    + right; left. unfold move_col. rewrite Hpop. csimpl. by rewrite Hins.
    + right; right.
      destruct (move_col_popped df i j name rest cols Hwf Hpop Hins)
        as (df' & ? & ? & ? & ?).
      by exists name, rest, cols, df'.
Qed.

Lemma ABCD_wf : df_wf ABCD.
Proof.
  apply (df_wf_intro _ 2%nat); [|by repeat constructor].
  apply (bool_decide_unpack (NoDup _)). by vm_compute.
Qed.

(** C1. For a frame with N columns and indices [0 <= from_index < N],
    [0 <= to_index < N], [move_col] returns a frame whose column order is the
    original one with the name at [from_index] removed and then inserted at
    position [to_index] of the remaining N-1 names, and in which every
    column has the data it had. *)
Theorem move_col_remove_then_insert (F : DataFrame) (from_index to_index : Z) :
  df_wf F →
  0 ≤ from_index < Z.of_nat (length (df_columns F)) →
  0 ≤ to_index < Z.of_nat (length (df_columns F)) →
  ∃ name F',
    df_columns F !! Z.to_nat from_index = Some name ∧
    move_col F from_index to_index = Ok F' ∧
    df_columns F' =
      insert_at (Z.to_nat to_index) name
        (delete (Z.to_nat from_index) (df_columns F)) ∧
    (∀ n, df_lookup F' n = df_lookup F n).
Proof.
  intros Hwf Hfrom Hto.
  destruct (lookup_lt_is_Some_2 (df_columns F) (Z.to_nat from_index))
    as [name Hname]; [lia|].
  pose proof (list_pop_in_range _ _ _ (proj1 Hfrom) Hname) as Hpop.
  assert (list_insert (delete (Z.to_nat from_index) (df_columns F)) to_index name
          = Ok (insert_at (Z.to_nat to_index) name
                  (delete (Z.to_nat from_index) (df_columns F)))) as Hins.
  { apply list_insert_in_range. rewrite length_delete by eauto. lia. }
  destruct (move_col_popped F _ to_index _ _ _ Hwf Hpop Hins)
    as (F' & Hmove & Hcols & Hdata & _).
  by exists name, F'.
Qed.

Lemma move_col_remove_then_insert_witness :
  ∃ name F',
    df_columns ABCD !! Z.to_nat 0 = Some name ∧
    move_col ABCD 0 2 = Ok F' ∧
    df_columns F' =
      insert_at (Z.to_nat 2) name (delete (Z.to_nat 0) (df_columns ABCD)) ∧
    (∀ n, df_lookup F' n = df_lookup ABCD n).
Proof.
  apply (move_col_remove_then_insert ABCD 0 2 ABCD_wf); simpl; lia.
Defined.

(** The two moves the specification works out on columns [A,B,C,D]. *)
Example move_col_0_2 : df_columns <$> move_col ABCD 0 2 = Ok ["B"; "C"; "A"; "D"].
Proof. reflexivity. Qed.

Example move_col_3_0 : df_columns <$> move_col ABCD 3 0 = Ok ["D"; "A"; "B"; "C"].
Proof. reflexivity. Qed.

(** C4, as stated, fails: a [to_index] beyond the last column and a
    negative [from_index] are both accepted. *)
Lemma move_col_accepts_out_of_range :
  length (df_columns ABCD) = 4%nat ∧
  df_columns <$> move_col ABCD 0 5 = Ok ["B"; "C"; "D"; "A"] ∧
  df_columns <$> move_col ABCD (-1) 0 = Ok ["D"; "A"; "B"; "C"].
Proof. repeat split. Qed.

(** C4, amended.  On a frame with N columns, an index that does not fit a
    machine word (outside [-2^63 .. 2^63 - 1]) makes [move_col] fail with an
    OverflowError.  Among the indices that fit, it raises an IndexError
    exactly when [from_index] is outside [-N <= from_index < N] (a negative
    one counts from the last column), and no [to_index] makes it fail: the
    position is clamped. *)
Theorem move_col_index_error (F : DataFrame) (from_index to_index : Z) :
  df_wf F →
  Z.of_nat (length (df_columns F)) ≤ PY_SSIZE_T_MAX →
  (fits_ssize_t from_index = false →
   move_col F from_index to_index = Raise OverflowError) ∧
  (fits_ssize_t from_index = true →
   (move_col F from_index to_index = Raise IndexError ↔
      ¬ (- Z.of_nat (length (df_columns F)) ≤ from_index
         < Z.of_nat (length (df_columns F))))) ∧
  (- Z.of_nat (length (df_columns F)) ≤ from_index
     < Z.of_nat (length (df_columns F)) →
   (fits_ssize_t to_index = false →
    move_col F from_index to_index = Raise OverflowError) ∧
   (fits_ssize_t to_index = true →
    ∃ F', move_col F from_index to_index = Ok F')).
Proof.
  intros Hwf HN.
  destruct (list_pop_spec (df_columns F) from_index)
    as [[Hov Hpop]|[(Hov & Hout & Hpop)|(Hov & Hin & name & rest & Hpop & _ & Hlen)]].
  - assert (fits_ssize_t from_index = false) as Hunfit.
    { unfold index_overflows in Hov. apply andb_true_iff in Hov as [_ Hov].
      by apply negb_true_iff. }
    assert (move_col F from_index to_index = Raise OverflowError) as Hmove
      by (unfold move_col; by rewrite Hpop).
    split; [done|]. split; [congruence|].
    intros Hin. exfalso.
    assert (fits_ssize_t from_index = true) by (apply fits_ssize_t_true; lia).
    congruence.
  - assert (move_col F from_index to_index = Raise IndexError) as Hmove
      by (unfold move_col; by rewrite Hpop).
    split.
    { intros Hunfit. by rewrite index_overflows_unfit in Hov. }
    split; [done|]. by intros Hin.
  - split.
    { intros Hunfit. by rewrite index_overflows_unfit in Hov. }
    assert (Z.of_nat (length rest) ≤ PY_SSIZE_T_MAX) as Hrest by lia.
    split.
    + intros _. split; [|intros Hout; by destruct Hout].
      intros Hmove. exfalso.
      destruct (list_insert_inv rest to_index name _ eq_refl)
        as [Hins|(cols & Hins & _)].
      * unfold move_col in Hmove. rewrite Hpop in Hmove. csimpl in Hmove.
        by rewrite Hins in Hmove.
      * destruct (move_col_popped F _ to_index _ _ _ Hwf Hpop Hins)
          as (F' & HF' & _). congruence.
    + intros _. split.
      * intros Hunfit. unfold move_col. rewrite Hpop. csimpl.
        by rewrite list_insert_overflow by by apply index_overflows_unfit.
      * intros Hfit.
        destruct (list_insert_fits rest to_index name) as [cols Hins];
          [by apply index_overflows_fits|].
        destruct (move_col_popped F _ to_index _ _ _ Hwf Hpop Hins)
          as (F' & HF' & _). by exists F'.
Qed.

Lemma move_col_index_error_witness :
  (fits_ssize_t 5 = false → move_col ABCD 5 0 = Raise OverflowError) ∧
  (fits_ssize_t 5 = true →
   (move_col ABCD 5 0 = Raise IndexError ↔
      ¬ (- Z.of_nat (length (df_columns ABCD)) ≤ 5
         < Z.of_nat (length (df_columns ABCD))))) ∧
  (- Z.of_nat (length (df_columns ABCD)) ≤ 5
     < Z.of_nat (length (df_columns ABCD)) →
   (fits_ssize_t 0 = false → move_col ABCD 5 0 = Raise OverflowError) ∧
   (fits_ssize_t 0 = true → ∃ F', move_col ABCD 5 0 = Ok F')).
Proof. apply (move_col_index_error ABCD 5 0 ABCD_wf). by vm_compute. Defined.

Example move_col_5_0 : move_col ABCD 5 0 = Raise IndexError.
Proof. reflexivity. Qed.

(** An index of 2^64 is refused before the list is looked at. *)
Example move_col_overflow :
  move_col ABCD 18446744073709551616 0 = Raise OverflowError ∧
  move_col ABCD 0 18446744073709551616 = Raise OverflowError.
Proof. by split. Qed.

(** C9. For valid indices [i ≠ j], moving the column at [i] to [j] and
    then the column at [j] back to [i] gives the original frame again: same
    column order, same data. *)
Theorem move_col_reverse (F : DataFrame) (i j : Z) :
  df_wf F →
  0 ≤ i < Z.of_nat (length (df_columns F)) →
  0 ≤ j < Z.of_nat (length (df_columns F)) →
  i ≠ j →
  ∃ F', move_col F i j = Ok F' ∧ move_col F' j i = Ok F.
Proof.
  intros Hwf Hi Hj _.
  destruct (lookup_lt_is_Some_2 (df_columns F) (Z.to_nat i))
    as [name Hname]; [lia|].
  pose proof (list_pop_in_range _ _ _ (proj1 Hi) Hname) as Hpop.
  set (rest := delete (Z.to_nat i) (df_columns F)) in *.
  assert (length rest = (length (df_columns F) - 1)%nat) as Hlen
    by (unfold rest; rewrite length_delete by eauto; lia).
  pose proof (list_insert_in_range rest j name) as Hins.
  destruct (move_col_popped F _ j _ _ _ Hwf Hpop (Hins ltac:(lia)))
    as (F' & Hmove & Hcols & Hdata & Hwf').
  exists F'. split; [done|].
  assert (list_pop (df_columns F') j = Ok (name, rest)) as Hpop'.
  { rewrite Hcols, (list_pop_in_range _ j name);
      [|lia|apply lookup_take_insert; lia].
    by rewrite delete_take_insert by lia. }
  unfold move_col. rewrite Hpop'. csimpl.
  rewrite list_insert_in_range by lia. csimpl.
  unfold rest. rewrite take_insert_delete by done.
  unfold df_select. destruct Hwf as [Hnd Hh].
  rewrite decide_True by done.
  rewrite (select_columns_ext F' F) by done.
  by apply select_columns_of, columns_of_self.
Qed.

Lemma move_col_reverse_witness :
  ∃ F', move_col ABCD 0 3 = Ok F' ∧ move_col F' 3 0 = Ok ABCD.
Proof.
  apply (move_col_reverse ABCD 0 3 ABCD_wf); simpl; lia.
Defined.

(** ** Adding and replacing columns *)

Implicit Types (d : list (string * list pyval)).

Lemma assoc_set_lookup_eq d n c : df_lookup (assoc_set d n c) n = Some c.
Proof.
  induction d as [|[n0 c0] d IH]; cbn [assoc_set df_lookup].
  - by rewrite decide_True.
  - destruct (decide (n0 = n)) as [->|E]; cbn [df_lookup].
    + by rewrite decide_True.
    + by rewrite decide_False.
Qed.

Lemma assoc_set_lookup_ne d n c m :
  n ≠ m → df_lookup (assoc_set d n c) m = df_lookup d m.
Proof.
  intros Hne. induction d as [|[n0 c0] d IH]; cbn [assoc_set df_lookup].
  - by rewrite decide_False.
  - destruct (decide (n0 = n)) as [->|E]; cbn [df_lookup].
    + by rewrite !decide_False.
    + by rewrite IH.
Qed.

Lemma assoc_set_names d n c :
  (assoc_set d n c).*1 = if decide (n ∈ d.*1) then d.*1 else d.*1 ++ [n].
Proof.
  induction d as [|[n0 c0] d IH]; cbn [assoc_set fmap list_fmap fst].
  - rewrite decide_False; [done | apply not_elem_of_nil].
  - destruct (decide (n0 = n)) as [->|E]; cbn [fmap list_fmap fst app].
    + rewrite decide_True; [done | apply list_elem_of_here].
    + rewrite IH. destruct (decide (n ∈ d.*1)) as [Hin|Hin].
      * rewrite decide_True; [done | by apply list_elem_of_further].
      * rewrite decide_False; [done|]. rewrite not_elem_of_cons. by split.
Qed.

Lemma assoc_set_NoDup d n c : NoDup d.*1 → NoDup (assoc_set d n c).*1.
Proof.
  intros Hnd. rewrite assoc_set_names. case_decide as Hin; [done|].
  apply NoDup_app. repeat split; [done| |apply NoDup_singleton].
  intros x Hx ->%list_elem_of_singleton. done.
Qed.

Lemma assoc_set_heights d n c h :
  Forall (λ c, length c.2 = h) d → length c = h →
  Forall (λ c, length c.2 = h) (assoc_set d n c).
Proof.
  intros Hd Hc. induction Hd as [|[n0 c0] d H0 Hd IH]; cbn [assoc_set].
  - by repeat constructor.
  - destruct (decide (n0 = n)); by constructor.
Qed.

Lemma assoc_set_wf (df : DataFrame) n c :
  df_wf df → length c = df_height df → df_wf (assoc_set df n c).
Proof.
  intros [Hnd Hh] Hc. apply (df_wf_intro _ (df_height df)).
  - by apply assoc_set_NoDup.
  - by apply assoc_set_heights.
Qed.

Lemma assoc_set_height (df : DataFrame) n c :
  df ≠ [] → length c = df_height df → df_height (assoc_set df n c) = df_height df.
Proof.
  destruct df as [|[n0 c0] df]; [done|]. cbn [assoc_set]. intros _ Hc.
  by destruct (decide (n0 = n)).
Qed.

Lemma df_lookup_height (df : DataFrame) n c :
  df_wf df → df_lookup df n = Some c → df ≠ [] ∧ length c = df_height df.
Proof.
  intros [_ Hh] Hc. split; [by intros ->|].
  rewrite Forall_forall in Hh. by apply (Hh (n, c)), df_lookup_elem_of.
Qed.

(** ** Column mapper: the dictionary rule *)

Lemma with_columns_alias (df : DataFrame) e name :
  with_columns df [Alias e name] =
    cols ← eval df e;
    let cols := map (λ c : string * list pyval, (name, c.2)) cols in
    if decide (NoDup cols.*1) then mret (assoc_set_all df cols)
    else raise DuplicateError.
Proof.
  unfold with_columns. simpl. destruct (eval df e) as [t [cols|err]]; [|done].
  unfold mbind, exec_bind. simpl. rewrite !app_nil_r.
  by destruct (decide _).
Qed.

Lemma map_col_dict_run (F : DataFrame) a b D dflt col :
  df_lookup F a = Some col →
  map_col F (Name a) (Name b) (Dict D) dflt =
    Exec (map Lookup col) (Ok (Frame (assoc_set F b (map (remap D dflt) col)))).
Proof.
  intros Hcol. unfold map_col, _map_col_dict. simpl.
  rewrite with_columns_alias. simpl.
  unfold named_column, df_get_column. rewrite Hcol. simpl.
  unfold exec_fmap. simpl. by rewrite !app_nil_r.
Qed.

(** C2, as stated, fails: a column ["b"] that exists is overwritten where
    it stands, here as the first column, and the last column is still
    ["a"]. *)
Lemma map_col_dict_overwrites_in_place :
  outcome (map_col BA (Name "a") (Name "b") (Dict ten) (VInt 0)) =
    Ok (Frame [("b", [VInt 10; VInt 0]); ("a", [VInt 1; VInt 5])]) ∧
  last (df_columns [("b", [VInt 10; VInt 0]); ("a", [VInt 1; VInt 5])])
    ≠ Some "b".
Proof. split; [by vm_compute | done]. Qed.

(** C2, amended.  For a frame with a column of the plain name [a] that
    has a cell that is not null, a dictionary [D] that is not empty and whose
    keys have the data type of the cells of [a], and a default [dflt] that
    is [None] or has the data type of the values of [D]: [map_col] returns a
    frame with a column [b] whose row [i] is [D[a[i]]] where that key is
    present and [dflt] otherwise; row count and all other columns are
    unchanged and in the same order; [b] is added after the last column when
    the frame has no column [b], and overwritten in its place when it has
    one. *)
Theorem map_col_dict_column (F : DataFrame) (a b : string)
    (D : gmap pyval pyval) (dflt : pyval) (col : list pyval) (t u : dtype) :
  df_wf F →
  plain_name a = true →
  df_lookup F a = Some col →
  Exists (λ v, v ≠ VNone) col →
  Forall (λ v, v = VNone ∨ has_dtype t v) col →
  D ≠ ∅ →
  (∀ k w, D !! k = Some w → has_dtype t k ∧ has_dtype u w) →
  dflt = VNone ∨ has_dtype u dflt →
  ∃ F' new,
    outcome (map_col F (Name a) (Name b) (Dict D) dflt) = Ok (Frame F') ∧
    df_lookup F' b = Some new ∧
    length new = length col ∧
    (∀ i v, col !! i = Some v → new !! i = Some (default dflt (D !! v))) ∧
    df_wf F' ∧ df_height F' = df_height F ∧
    (∀ n, n ≠ b → df_lookup F' n = df_lookup F n) ∧
    df_columns F' =
      (if decide (b ∈ df_columns F) then df_columns F else df_columns F ++ [b]).
Proof.
  intros Hwf _ Hcol _ _ _ _ _. rewrite (map_col_dict_run _ _ _ _ _ _ Hcol). simpl.
  destruct (df_lookup_height _ _ _ Hwf Hcol) as [Hne Hlen].
  eexists _, _. split; [done|].
  split; [apply assoc_set_lookup_eq|].
  split; [by rewrite length_map|].
  split.
  { intros i v Hv. rewrite list_lookup_fmap, Hv. simpl.
    unfold remap. by destruct (D !! v). }
  split; [apply assoc_set_wf; [done | by rewrite length_map]|].
  split; [apply assoc_set_height; [done | by rewrite length_map]|].
  split; [intros n Hn; by apply assoc_set_lookup_ne|].
  apply assoc_set_names.
Qed.

Lemma BA_wf : df_wf BA.
Proof.
  apply (df_wf_intro _ 2%nat); [|by repeat constructor].
  apply (bool_decide_unpack (NoDup _)). by vm_compute.
Qed.

Lemma map_col_dict_column_witness :
  ∃ F' new,
    outcome (map_col BA (Name "a") (Name "b") (Dict ten) (VInt 0)) = Ok (Frame F') ∧
    df_lookup F' "b" = Some new ∧
    length new = length [VInt 1; VInt 5] ∧
    (∀ i v, [VInt 1; VInt 5] !! i = Some v →
            new !! i = Some (default (VInt 0) (ten !! v))) ∧
    df_wf F' ∧ df_height F' = df_height BA ∧
    (∀ n, n ≠ "b" → df_lookup F' n = df_lookup BA n) ∧
    df_columns F' =
      (if decide ("b" ∈ df_columns BA) then df_columns BA else df_columns BA ++ ["b"]).
Proof.
  apply (map_col_dict_column BA "a" "b" ten (VInt 0) _ Int64 Int64 BA_wf).
  - reflexivity.
  - reflexivity.
  - by left.
  - repeat constructor; by right.
  - unfold ten. apply insert_non_empty.
  - unfold ten. intros k w [<- <-]%lookup_singleton_Some. by split.
  - by right.
Defined.

(** ** Column mapper: one column to one column *)

Lemma forallb_is_null_false (c : list pyval) :
  Exists (λ v, v ≠ VNone) c → forallb is_null c = false.
Proof.
  induction 1 as [v c Hv|v c _ IH]; simpl.
  - by destruct v.
  - rewrite IH. apply andb_false_r.
Qed.

Lemma forallb_is_null_true (c : list pyval) :
  Forall (λ v, v = VNone) c → forallb is_null c = true.
Proof. induction 1 as [|v c -> _ IH]; simpl; done. Qed.

(** Results of one data type are stored as they are. *)
Lemma conform_typed (t : dtype) (results : list pyval) :
  Forall (λ v, v = VNone ∨ has_dtype t v) results → conform results = results.
Proof.
  intros Htyped. unfold conform, inferred_dtype.
  destruct (filter _ results) as [|x xs] eqn:Hfilter; [done|].
  assert (x ∈ filter (λ v, is_null v = false) results) as Hx
    by (rewrite Hfilter; apply list_elem_of_here).
  apply list_elem_of_filter in Hx as [Hnull Hx].
  rewrite Forall_forall in Htyped.
  destruct (Htyped x Hx) as [->|Htx]; [done|].
  assert (∀ t', (∀ v, v ∈ results → v = VNone ∨ has_dtype t' v) →
            map (λ v, if fits_dtype t' v then v else VNone) results = results)
    as Hid.
  { clear. intros t' Ht'. induction results as [|v results IH]; [done|].
    cbn [map]. rewrite IH by (intros w Hw; apply Ht'; by right).
    destruct (Ht' v) as [->|Hv]; [by left| |].
    - by destruct t'.
    - unfold has_dtype in Hv. by rewrite Hv. }
  destruct x as [|z|str|l|ns vs]; try done; destruct t; try done;
    by apply Hid.
Qed.

(** Results that begin with a sequence or a record are stored as they
    are. *)
Lemma conform_seq (res : pyval) (results : list pyval) :
  is_seq res → conform (res :: results) = res :: results.
Proof. by destruct res. Qed.

Lemma map_col_1to1_run (F : DataFrame) a b f dflt col :
  df_lookup F a = Some col →
  forallb is_null col = false →
  map_col F (Name a) (Name b) (Callable f) dflt =
    Exec (calls col) (Ok (Frame (assoc_set F b (apply_column f col)))).
Proof.
  intros Hcol Hnull. unfold map_col, _map_1to1_function. simpl.
  rewrite with_columns_alias. simpl.
  unfold named_column, df_get_column. rewrite Hcol. simpl. rewrite Hnull. simpl.
  unfold exec_fmap. simpl. by rewrite !app_nil_r.
Qed.

Lemma map_col_1to1_all_null (F : DataFrame) a b f dflt col :
  df_lookup F a = Some col →
  forallb is_null col = true →
  map_col F (Name a) (Name b) (Callable f) dflt = Exec [] (Raise ComputeError).
Proof.
  intros Hcol Hnull. unfold map_col, _map_1to1_function. simpl.
  rewrite with_columns_alias. simpl.
  unfold named_column, df_get_column. rewrite Hcol. simpl. by rewrite Hnull.
Qed.

(** C10, as stated, fails on a row whose source cell is null: the
    function is not called on it and the target cell is null, not [f(a[i])]. *)
Lemma map_col_1to1_skips_null :
  map_col with_null (Name "a") (Name "b") (Callable seven) VNone =
    Exec [Call (VInt 1)]
      (Ok (Frame [("a", [VInt 1; VNone]); ("b", [VInt 7; VNone])])) ∧
  [VInt 1; VNone] !! 1%nat = Some VNone ∧
  [VInt 7; VNone] !! 1%nat ≠ Some (seven VNone).
Proof. split; [by vm_compute | done]. Qed.

(** C10, amended.  For a frame with a column of the plain name [a] whose
    cells are null or of one data type, and a function [f]: if the column
    has rows and all its cells are null, the 1-to-1 mode fails with a
    ComputeError without calling [f]; if a cell is not null and the results
    of [f] on the cells that are not null all have one data type (64-bit
    integers, or strings), it returns a frame with a column [b] of as many
    rows, where [b[i] = f(a[i])] on every row whose source cell is not null;
    a null source cell gives a null, and [f] is called on the other cells
    only, in row order. *)
Theorem map_col_1to1_column (F : DataFrame) (a b : string)
    (f : pyval → pyval) (dflt : pyval) (col : list pyval) (t0 t : dtype) :
  df_wf F →
  plain_name a = true →
  df_lookup F a = Some col →
  Forall (λ v, v = VNone ∨ has_dtype t0 v) col →
  (col ≠ [] → Forall (λ v, v = VNone) col →
   map_col F (Name a) (Name b) (Callable f) dflt = Exec [] (Raise ComputeError)) ∧
  (Exists (λ v, v ≠ VNone) col →
   (∀ v, v ∈ col → v ≠ VNone → has_dtype t (f v)) →
   ∃ F' new,
     outcome (map_col F (Name a) (Name b) (Callable f) dflt) = Ok (Frame F') ∧
     trace (map_col F (Name a) (Name b) (Callable f) dflt) =
       map Call (filter (λ v, v ≠ VNone) col) ∧
     df_lookup F' b = Some new ∧
     length new = length col ∧
     (∀ i v, col !! i = Some v → v ≠ VNone → new !! i = Some (f v)) ∧
     (∀ i, col !! i = Some VNone → new !! i = Some VNone) ∧
     df_wf F' ∧ df_height F' = df_height F).
Proof.
  intros Hwf _ Hcol _. split.
  { intros _ Hnull. apply (map_col_1to1_all_null _ _ _ _ _ col); [done|].
    by apply forallb_is_null_true. }
  intros Hsome Hres.
  rewrite (map_col_1to1_run _ _ _ _ _ col Hcol (forallb_is_null_false _ Hsome)).
  simpl.
  assert (apply_column f col = map (apply_elem f) col) as ->.
  { unfold apply_column. apply (conform_typed t). apply Forall_forall.
    intros r [v [-> Hv]]%list_elem_of_fmap.
    destruct (decide (v = VNone)) as [->|Hnn]; [by left|].
    right. specialize (Hres v Hv Hnn). by destruct v. }
  destruct (df_lookup_height _ _ _ Hwf Hcol) as [Hne Hlen].
  eexists _, _. split; [done|].
  split.
  { unfold calls. f_equal. apply list_filter_iff. intros v. by destruct v. }
  split; [apply assoc_set_lookup_eq|].
  split; [by rewrite length_map|].
  split.
  { intros i v Hv Hnn. rewrite list_lookup_fmap, Hv. simpl. by destruct v. }
  split.
  { intros i Hv. by rewrite list_lookup_fmap, Hv. }
  split; [apply assoc_set_wf; [done | by rewrite length_map]|].
  apply assoc_set_height; [done | by rewrite length_map].
Qed.

Lemma with_null_wf : df_wf with_null.
Proof. apply (df_wf_intro _ 2%nat); repeat constructor. by intros ?%elem_of_nil. Qed.

Lemma map_col_1to1_column_witness :
  ([VInt 1; VNone] ≠ [] → Forall (λ v, v = VNone) [VInt 1; VNone] →
   map_col with_null (Name "a") (Name "b") (Callable seven) VNone =
     Exec [] (Raise ComputeError)) ∧
  (Exists (λ v, v ≠ VNone) [VInt 1; VNone] →
   (∀ v, v ∈ [VInt 1; VNone] → v ≠ VNone → has_dtype Int64 (seven v)) →
   ∃ F' new,
     outcome (map_col with_null (Name "a") (Name "b") (Callable seven) VNone)
       = Ok (Frame F') ∧
     trace (map_col with_null (Name "a") (Name "b") (Callable seven) VNone) =
       map Call (filter (λ v, v ≠ VNone) [VInt 1; VNone]) ∧
     df_lookup F' "b" = Some new ∧
     length new = length [VInt 1; VNone] ∧
     (∀ i v, [VInt 1; VNone] !! i = Some v → v ≠ VNone → new !! i = Some (seven v)) ∧
     (∀ i, [VInt 1; VNone] !! i = Some VNone → new !! i = Some VNone) ∧
     df_wf F' ∧ df_height F' = df_height with_null).
Proof.
  apply (map_col_1to1_column with_null "a" "b" seven VNone _ Int64 Int64
           with_null_wf).
  - reflexivity.
  - reflexivity.
  - constructor; [by right|]. constructor; [by left|]. constructor.
Defined.

(** A column of nulls only: the function is never called. *)
Example map_col_1to1_all_null_example :
  map_col [("a", [VNone; VNone])] (Name "a") (Name "b") (Callable seven) VNone =
    Exec [] (Raise ComputeError).
Proof. reflexivity. Qed.

(** A string after an integer is stored as null. *)
Example map_col_1to1_mixed_example :
  outcome (map_col AB12 (Name "a") (Name "b")
             (Callable (λ v, if decide (v = VInt 1) then VInt 1 else VStr "s")) VNone) =
    Ok (Frame [("a", [VInt 1; VInt 2]); ("b", [VInt 1; VNone])]).
Proof. by vm_compute. Qed.

(** ** Column mapper: one column to several *)

Lemma mapM_getitem_Ok (results : list pyval) (i : nat) :
  Forall is_seq results →
  Forall (λ res, (i < seq_length res)%nat) results →
  mapM (λ res, getitem res i) results = Ok (map (item i) results).
Proof.
  induction 1 as [|res results Hres _ IH]; intros Hlen; [done|].
  apply Forall_cons in Hlen as [Hi Hlen]. cbn [mapM map].
  rewrite (IH Hlen). destruct res as [| | |l|]; try done.
  unfold item. simpl in *.
  destruct (lookup_lt_is_Some_2 l i Hi) as [x Hx]. by rewrite Hx.
Qed.

Lemma mapM_getitem_short (results : list pyval) (i : nat) :
  Forall is_seq results →
  Exists (λ res, (seq_length res ≤ i)%nat) results →
  mapM (λ res, getitem res i) results = Raise IndexError.
Proof.
  induction 1 as [|res results Hres _ IH]; intros Hshort.
  - by apply Exists_nil in Hshort.
  - cbn [mapM]. destruct res as [| | |l|]; try done. simpl in *.
    destruct (l !! i) as [x|] eqn:Hx; [|done]. simpl.
    apply Exists_cons in Hshort as [Hl|Hshort].
    + apply lookup_lt_Some in Hx. simpl in Hl. lia.
    + by rewrite (IH Hshort).
Qed.

Section comprehension.
Context (new_col_names : list string) (results : list pyval).
Context (Hseq : Forall is_seq results).

Lemma new_columns_from_Ok (pre suf : list string) d :
  new_col_names = pre ++ suf →
  Forall (λ res, (length new_col_names ≤ seq_length res)%nat) results →
  new_columns_from new_col_names results (seq (length pre) (length suf)) d =
    Ok (assoc_set_all d
          (imap (λ i name, (name, map (item (length pre + i)) results)) suf)).
Proof.
  intros Hnames Hlong. revert pre d Hnames.
  induction suf as [|name suf IH]; intros pre d Hnames; [done|].
  cbn [length seq new_columns_from].
  rewrite Hnames, lookup_app_r, Nat.sub_diag by done. cbn [lookup list_lookup].
  rewrite mapM_getitem_Ok; [|done|].
  2:{ eapply Forall_impl; [exact Hlong|]. intros res Hres. simpl in Hres.
      rewrite Hnames, length_app in Hres. simpl in Hres. lia. }
  csimpl. rewrite <- Hnames.
  specialize (IH (pre ++ [name]) (assoc_set d name (map (item (length pre)) results))).
  rewrite length_app in IH. simpl in IH. rewrite Nat.add_1_r in IH.
  rewrite IH by (by rewrite <- (assoc_L (++))).
  unfold assoc_set_all. simpl. rewrite Nat.add_0_r. do 2 f_equal.
  apply imap_ext. intros i x _. simpl. by rewrite Nat.add_succ_r.
Qed.

Lemma new_columns_from_short (m k : nat) d :
  (k + m ≤ length new_col_names)%nat →
  Exists (λ res, (seq_length res < k + m)%nat) results →
  Forall (λ res, (k ≤ seq_length res)%nat) results →
  new_columns_from new_col_names results (seq k m) d = Raise IndexError.
Proof.
  revert k d. induction m as [|m IH]; intros k d Hk Hshort Hlong.
  - apply Exists_exists in Hshort as (res & Hin & Hres).
    rewrite Forall_forall in Hlong. specialize (Hlong res Hin). lia.
  - cbn [seq new_columns_from].
    destruct (lookup_lt_is_Some_2 new_col_names k) as [name ->]; [lia|].
    destruct (decide (Forall (λ res, (S k ≤ seq_length res)%nat) results))
      as [Hall|Hnot].
    + rewrite mapM_getitem_Ok by done. csimpl.
      apply IH; [lia | | done].
      eapply Exists_impl; [exact Hshort|]. intros res Hres. simpl in *. lia.
    + apply not_Forall_Exists in Hnot; [|solve_decision].
      rewrite mapM_getitem_short; [done..|].
      eapply Exists_impl; [exact Hnot|]. intros res Hres. simpl in *. lia.
Qed.
End comprehension.

Lemma df_lookup_app d1 d2 n :
  df_lookup (d1 ++ d2) n =
    match df_lookup d1 n with Some c => Some c | None => df_lookup d2 n end.
Proof.
  induction d1 as [|[m c] d1 IH]; cbn [app df_lookup]; [done|].
  by destruct (decide (m = n)).
Qed.

(** Setting columns one after the other: for each name the last one set
    stays. *)
Lemma assoc_set_all_lookup_last d news n :
  df_lookup (assoc_set_all d news) n =
    match df_lookup (reverse news) n with
    | Some c => Some c
    | None => df_lookup d n
    end.
Proof.
  unfold assoc_set_all. revert d.
  induction news as [|[m c] news IH]; intros d; [done|].
  cbn [foldl fst snd]. rewrite IH, reverse_cons, df_lookup_app.
  destruct (df_lookup (reverse news) n); [done|]. cbn [df_lookup].
  destruct (decide (m = n)) as [->|Hne].
  - apply assoc_set_lookup_eq.
  - by apply assoc_set_lookup_ne.
Qed.

Lemma assoc_set_all_NoDup d news : NoDup d.*1 → NoDup (assoc_set_all d news).*1.
Proof.
  unfold assoc_set_all. revert d.
  induction news as [|[m c] news IH]; intros d Hnd; [done|].
  cbn [foldl fst snd]. by apply IH, assoc_set_NoDup.
Qed.

Lemma assoc_set_all_lookup d news n :
  NoDup news.*1 →
  df_lookup (assoc_set_all d news) n =
    match df_lookup news n with Some c => Some c | None => df_lookup d n end.
Proof.
  unfold assoc_set_all. revert d.
  induction news as [|[m c] news IH]; intros d Hnd; [done|].
  csimpl in Hnd. apply NoDup_cons in Hnd as [Hm Hnd].
  cbn [foldl df_lookup fst snd]. rewrite (IH _ Hnd).
  destruct (decide (m = n)) as [->|Hne].
  - apply df_lookup_None in Hm. rewrite Hm. apply assoc_set_lookup_eq.
  - by rewrite assoc_set_lookup_ne.
Qed.

Lemma imap_names {B} (g : nat → B) (names : list string) :
  (imap (λ i name, (name, g i)) names).*1 = names.
Proof.
  revert g. induction names as [|n names IH]; intros g; [done|].
  csimpl. f_equal. apply (IH (g ∘ S)).
Qed.

Lemma imap_lookup_last (g : nat → list pyval) (names : list string) i name :
  names !! i = Some name →
  (∀ j, (i < j)%nat → names !! j ≠ Some name) →
  df_lookup (reverse (imap (λ i name, (name, g i)) names)) name = Some (g i).
Proof.
  revert i. induction names as [|x names IH] using rev_ind; intros i Hi Hlast;
    [done|].
  rewrite imap_app, reverse_app. cbn [imap reverse rev_append app df_lookup].
  destruct (decide (i = length names)) as [->|Hne].
  - rewrite lookup_app_r, Nat.sub_diag in Hi by done. injection Hi as ->.
    rewrite decide_True by done. simpl. by rewrite Nat.add_0_r.
  - assert (i < length names)%nat as Hlt.
    { apply lookup_lt_Some in Hi. rewrite length_app in Hi. simpl in Hi. lia. }
    rewrite lookup_app_l in Hi by done.
    rewrite decide_False.
    + apply IH; [done|]. intros j Hj Hname.
      apply (Hlast j Hj). rewrite lookup_app_l; [done|].
      by apply lookup_lt_Some in Hname.
    + intros ->. apply (Hlast (length names) Hlt).
      by rewrite lookup_app_r, Nat.sub_diag.
Qed.

Lemma imap_lookup_None (g : nat → list pyval) (names : list string) n :
  n ∉ names →
  df_lookup (reverse (imap (λ i name, (name, g i)) names)) n = None.
Proof.
  intros Hn. apply df_lookup_None.
  by rewrite fmap_reverse, imap_names, elem_of_reverse.
Qed.

Lemma eval_all_series (df : DataFrame) (news : list (string * list pyval)) :
  eval_all df (map (λ nv : string * list pyval, Series nv.1 nv.2) news) =
    Exec [] (Ok news).
Proof.
  induction news as [|[n c] news IH]; [done|].
  cbn [map eval_all eval fst snd]. rewrite IH. reflexivity.
Qed.

(** What [_map_1ton_function] does once the source column is known. *)
Lemma map_col_1ton_run (F : DataFrame) a names f dflt col :
  df_lookup F a = Some col →
  forallb is_null col = false →
  map_col F (Name a) (Names names) (Callable f) dflt =
    Frame <$>
      (new_columns ← Exec (calls col)
         (new_columns_from names (apply_column f col) (seq 0 (length names)) []);
       with_columns F (map (λ nv : string * list pyval, Series nv.1 nv.2) new_columns)).
Proof.
  intros Hcol Hnull. unfold map_col, _map_1ton_function, df_get_column.
  rewrite Hcol. unfold lift, mbind, exec_bind. cbn [outcome trace].
  unfold map_elements. rewrite Hnull. simpl.
  destruct (new_columns_from _ _ _ _); unfold fmap, exec_fmap; simpl;
    by rewrite ?app_nil_r.
Qed.

Lemma map_col_1ton_all_null (F : DataFrame) a names f dflt col :
  df_lookup F a = Some col →
  forallb is_null col = true →
  map_col F (Name a) (Names names) (Callable f) dflt = Exec [] (Raise ComputeError).
Proof.
  intros Hcol Hnull. unfold map_col, _map_1ton_function, df_get_column.
  rewrite Hcol. unfold lift, mbind, exec_bind. cbn [outcome trace].
  unfold map_elements. by rewrite Hnull.
Qed.

(** When the result for every row is a sequence, no cell is null and the
    results are stored as they are. *)
Lemma seq_results (f : pyval → pyval) (col : list pyval) :
  col ≠ [] →
  Forall is_seq (map (apply_elem f) col) →
  forallb is_null col = false ∧ apply_column f col = map (apply_elem f) col.
Proof.
  intros Hne Hseq. destruct col as [|v col]; [done|].
  cbn [map] in Hseq. apply Forall_cons in Hseq as [Hv _]. split.
  - by destruct v.
  - unfold apply_column. cbn [map]. by apply conform_seq.
Qed.

(** C3, as stated, fails: a result longer than the list of target names
    raises nothing, its extra item is dropped. *)
Lemma map_col_1ton_truncates :
  seq_length (thrice (VInt 1)) = 3%nat ∧ length ["y"; "z"] = 2%nat ∧
  outcome (map_col AB12 (Name "a") (Names ["y"; "z"]) (Callable thrice) VNone) =
    Ok (Frame [("a", [VInt 1; VInt 2]); ("y", [VInt 1; VInt 2]);
               ("z", [VInt 1; VInt 2])]).
Proof. repeat split. Qed.

(** C3, amended.  In 1-to-N mode on a column without rows the call
    fails with a ComputeError.  On a column with rows whose cells have one
    data type, when the result for every row is a sequence that is not
    empty (so no source cell is null) and the items of all these sequences
    have one data type:
    if every sequence has at least N items the call succeeds, the target
    column named by index [i] (the last such index, should a name be listed
    twice) holds item [i] of each row's result, items from index N on are
    dropped, and no other column changes; if some sequence has fewer than N
    items the call fails with an IndexError, after the function has been
    called on the rows, and nothing is padded. *)
Theorem map_col_1ton_lengths (F : DataFrame) (a : string) (names : list string)
    (f : pyval → pyval) (dflt : pyval) (col : list pyval) (t0 t : dtype) :
  df_wf F →
  df_lookup F a = Some col →
  (col = [] →
   map_col F (Name a) (Names names) (Callable f) dflt =
     Exec [] (Raise ComputeError)) ∧
  (col ≠ [] →
   Forall (has_dtype t0) col →
   Forall is_seq (map (apply_elem f) col) →
   Forall (λ res, (0 < seq_length res)%nat) (map (apply_elem f) col) →
   Forall (items_have_dtype t) (map (apply_elem f) col) →
   (Forall (λ res, (length names ≤ seq_length res)%nat) (map (apply_elem f) col) →
    ∃ F',
      outcome (map_col F (Name a) (Names names) (Callable f) dflt) = Ok (Frame F') ∧
      (∀ i name, names !! i = Some name →
         (∀ j, (i < j)%nat → names !! j ≠ Some name) →
         ∃ new, df_lookup F' name = Some new ∧ length new = length col ∧
                ∀ r l, map (apply_elem f) col !! r = Some (VList l) →
                       new !! r = l !! i) ∧
      (∀ n, n ∉ names → df_lookup F' n = df_lookup F n)) ∧
   (Exists (λ res, (seq_length res < length names)%nat) (map (apply_elem f) col) →
    map_col F (Name a) (Names names) (Callable f) dflt =
      Exec (calls col) (Raise IndexError))).
Proof.
  intros Hwf Hcol. split.
  { intros ->. by apply (map_col_1ton_all_null _ _ _ _ _ []). }
  intros Hne _ Hseq _ _.
  destruct (seq_results f col Hne Hseq) as [Hnull Hres].
  rewrite (map_col_1ton_run _ _ _ _ _ _ Hcol Hnull), Hres.
  set (results := map (apply_elem f) col) in *. split.
  - intros Hlong.
    rewrite (new_columns_from_Ok names results Hseq [] names) by done.
    set (g := λ i, map (item (length (@nil string) + i)) results).
    change (imap _ names) with (imap (λ i name, (name, g i)) names).
    set (news := imap (λ i name, (name, g i)) names).
    assert (NoDup (assoc_set_all [] news).*1) as Hnd
      by (apply assoc_set_all_NoDup; constructor).
    unfold with_columns. simpl. rewrite eval_all_series. simpl.
    rewrite decide_True by done. simpl.
    eexists. split; [done|]. split.
    + intros i name Hi Hlast. eexists. split.
      { rewrite assoc_set_all_lookup by done.
        rewrite assoc_set_all_lookup_last.
        unfold news. by rewrite (imap_lookup_last _ _ _ _ Hi Hlast). }
      split; [unfold g, results; by rewrite !length_map|].
      intros r l Hr. unfold g. rewrite list_lookup_fmap, Hr. simpl.
      rewrite Forall_forall in Hlong.
      pose proof (Hlong _ (list_elem_of_lookup_2 _ _ _ Hr)) as Hl. simpl in Hl.
      apply lookup_lt_Some in Hi.
      destruct (lookup_lt_is_Some_2 l i) as [x Hx]; [lia|].
      unfold item. simpl. by rewrite Hx.
    + intros n Hn. rewrite assoc_set_all_lookup by done.
      rewrite assoc_set_all_lookup_last.
      unfold news. by rewrite imap_lookup_None.
  - intros Hshort.
    rewrite (new_columns_from_short names results Hseq); try done.
    apply Forall_forall. intros; lia.
Qed.

Lemma AB12_wf : df_wf AB12.
Proof. apply (df_wf_intro _ 2%nat); repeat constructor. by intros ?%elem_of_nil. Qed.

Lemma map_col_1ton_lengths_witness :
  ([VInt 1; VInt 2] = [] →
   map_col AB12 (Name "a") (Names ["y"; "z"]) (Callable thrice) VNone =
     Exec [] (Raise ComputeError)) ∧
  ([VInt 1; VInt 2] ≠ [] →
   Forall (has_dtype Int64) [VInt 1; VInt 2] →
   Forall is_seq (map (apply_elem thrice) [VInt 1; VInt 2]) →
   Forall (λ res, (0 < seq_length res)%nat) (map (apply_elem thrice) [VInt 1; VInt 2]) →
   Forall (items_have_dtype Int64) (map (apply_elem thrice) [VInt 1; VInt 2]) →
   (Forall (λ res, (length ["y"; "z"] ≤ seq_length res)%nat)
      (map (apply_elem thrice) [VInt 1; VInt 2]) →
    ∃ F',
      outcome (map_col AB12 (Name "a") (Names ["y"; "z"]) (Callable thrice) VNone)
        = Ok (Frame F') ∧
      (∀ i name, ["y"; "z"] !! i = Some name →
         (∀ j, (i < j)%nat → ["y"; "z"] !! j ≠ Some name) →
         ∃ new, df_lookup F' name = Some new ∧
                length new = length [VInt 1; VInt 2] ∧
                ∀ r l, map (apply_elem thrice) [VInt 1; VInt 2] !! r = Some (VList l) →
                       new !! r = l !! i) ∧
      (∀ n, n ∉ ["y"; "z"] → df_lookup F' n = df_lookup AB12 n)) ∧
   (Exists (λ res, (seq_length res < length ["y"; "z"])%nat)
      (map (apply_elem thrice) [VInt 1; VInt 2]) →
    map_col AB12 (Name "a") (Names ["y"; "z"]) (Callable thrice) VNone =
      Exec (calls [VInt 1; VInt 2]) (Raise IndexError))).
Proof.
  apply (map_col_1ton_lengths AB12 "a" ["y"; "z"] thrice VNone _ Int64 Int64
           AB12_wf).
  reflexivity.
Defined.

(** A column without rows: the function is never called. *)
Example map_col_1ton_no_rows :
  map_col [("a", [])] (Name "a") (Names ["y"; "z"]) (Callable thrice) VNone =
    Exec [] (Raise ComputeError).
Proof. reflexivity. Qed.

(** A result shorter than the list of target names: the call fails once
    the function has been called on both rows. *)
Example map_col_1ton_short :
  map_col AB12 (Name "a") (Names ["y"; "z"]) (Callable once) VNone =
    Exec [Call (VInt 1); Call (VInt 2)] (Raise IndexError).
Proof. reflexivity. Qed.

(** ** Column mapper: dispatch *)

(** C5, the failing input.  The code does not do what the claim says:
    with a rule that is neither a dictionary nor callable, [map_col] raises
    nothing; it reaches the end of its body and returns [None], where its
    signature and its docstring declare a DataFrame and where its
    dictionary branch raises a ValueError on a combination it does not
    accept. *)
Lemma map_col_no_rule_returns_None :
  spec_mode (Name "A") (Name "E") NoRule = None ∧
  map_col ABCD (Name "A") (Name "E") NoRule VNone = Exec [] (Ok PyNone).
Proof. by split. Qed.

(** C5, what the code does instead.  At every combination of arguments
    that none of modes 1 to 5 matches (a rule that is neither a dictionary
    nor callable; a callable with a source or target that is neither a name
    nor a list) [map_col] raises no error: it returns [None], and no row is
    processed. *)
Theorem map_col_unmatched (F : DataFrame) (map_from map_to : colarg)
    (mapping : rule) (dflt : pyval) :
  spec_mode map_from map_to mapping = None →
  map_col F map_from map_to mapping dflt = Exec [] (Ok PyNone).
Proof.
  destruct mapping as [D|f|]; [done| |done].
  by destruct map_from, map_to.
Qed.

Lemma map_col_unmatched_witness :
  map_col ABCD NoName (Names ["E"]) (Callable seven) VNone = Exec [] (Ok PyNone).
Proof. apply map_col_unmatched. reflexivity. Defined.

(** C6, as stated, fails: with a dictionary, a single source name and a
    list of target names the call fails, but with the TypeError of the
    library's [alias], not with the mapper's ValueError. *)
Lemma dict_list_target_raises_TypeError :
  map_col ABCD (Name "A") (Names ["E"]) (Dict ten) VNone =
    Exec [] (Raise TypeError) ∧
  outcome (map_col ABCD (Name "A") (Names ["E"]) (Dict ten) VNone)
    ≠ Raise ValueError.
Proof. by split. Qed.

(** C6, amended.  When the rule is a dictionary and the target is a list
    of names, [map_col] produces no frame and processes no row: it fails
    with a ValueError if the source is a list as well, and otherwise with a
    TypeError that the library raises while the expression is built (for a
    source that is a name: when the list is given to [alias]). *)
Theorem map_col_dict_list_target (F : DataFrame) (map_from : colarg)
    (new_col_names : list string) (D : gmap pyval pyval) (dflt : pyval) :
  map_col F map_from (Names new_col_names) (Dict D) dflt =
    Exec [] (Raise (match map_from with
                    | Names _ => ValueError
                    | Name _ | NoName => TypeError
                    end)).
Proof. by destruct map_from. Qed.

(** C7.  With a callable rule, a list of source names and a list of
    target names, [map_col] always fails with NotImplementedError, whatever
    the frame, the function and the two lists; no row is processed and the
    function is never called. *)
Theorem map_col_ntom_not_implemented (F : DataFrame)
    (col_names new_col_names : list string) (f : pyval → pyval) (dflt : pyval) :
  map_col F (Names col_names) (Names new_col_names) (Callable f) dflt =
    Exec [] (Raise NotImplementedError).
Proof. reflexivity. Qed.

(** C8.  With a dictionary rule and a list of source names, [map_col]
    fails with ValueError for every frame, target and dictionary, and the
    trace is empty: the error is raised before any row is processed. *)
Theorem map_col_dict_list_source (F : DataFrame) (col_names : list string)
    (map_to : colarg) (D : gmap pyval pyval) (dflt : pyval) :
  map_col F (Names col_names) map_to (Dict D) dflt = Exec [] (Raise ValueError).
Proof. reflexivity. Qed.

(** The worked examples of the specification for the 1-to-N and M-to-1
    modes. *)
Example map_col_1ton_example :
  outcome (map_col AB12 (Name "a") (Names ["y"; "z"]) (Callable double_pair) VNone) =
    Ok (Frame [("a", [VInt 1; VInt 2]); ("y", [VInt 1; VInt 2]);
               ("z", [VInt 2; VInt 4])]).
Proof. reflexivity. Qed.

Example map_col_nto1_example :
  outcome (map_col [("a", [VInt 1; VInt 2]); ("b", [VInt 10; VInt 20])]
             (Names ["a"; "b"]) (Name "c") (Callable add_fields) VNone) =
    Ok (Frame [("a", [VInt 1; VInt 2]); ("b", [VInt 10; VInt 20]);
               ("c", [VInt 11; VInt 22])]).
Proof. reflexivity. Qed.

(** * Further properties *)

(** ** Column mover: what a move keeps *)

Lemma df_height_lookup (df df' : DataFrame) :
  df_wf df → df' ≠ [] →
  (∀ n, df_lookup df' n = df_lookup df n) →
  df_height df' = df_height df.
Proof.
  intros Hwf Hne Hdata. destruct df' as [|[n c] df']; [done|]. simpl.
  specialize (Hdata n). cbn [df_lookup] in Hdata. rewrite decide_True in Hdata by done.
  symmetry in Hdata. by destruct (df_lookup_height _ _ _ Hwf Hdata).
Qed.

(** X1.  A move that succeeds, whatever the two indices, returns a frame
    with the same columns in another order: no column is dropped, repeated
    or renamed, each keeps its data, and the number of rows is the same. *)
Theorem move_col_keeps_frame (F F' : DataFrame) (from_index to_index : Z) :
  df_wf F →
  move_col F from_index to_index = Ok F' →
  df_columns F' ≡ₚ df_columns F ∧
  (∀ n, df_lookup F' n = df_lookup F n) ∧
  df_wf F' ∧ df_height F' = df_height F.
Proof.
  intros Hwf Hmove.
  destruct (move_col_inv F from_index to_index Hwf)
    as [Hraise|[Hraise|(name & rest & cols & F'' & Hpop & Hins & Hok & Hcols
                        & Hdata & Hwf')]];
    [congruence..|].
  rewrite Hmove in Hok. injection Hok as <-.
  destruct (list_insert_inv _ _ _ _ Hins) as [?|(? & [= <-] & Hperm1)]; [done|].
  assert (df_columns F' ≡ₚ df_columns F) as Hperm.
  { rewrite Hcols, Hperm1.
    by destruct (list_pop_inv _ _ _ Hpop) as [?|[?|(? & ? & [= <- <-] & ?)]]. }
  split; [done|]. split; [done|]. split; [done|].
  apply df_height_lookup; [done| |done].
  intros ->. simpl in Hcols. rewrite <- Hcols in Hperm1.
  by apply Permutation_nil_cons in Hperm1.
Qed.

Lemma move_col_keeps_frame_witness :
  move_col ABCD 0 9 = Ok BCDA ∧
  df_columns BCDA ≡ₚ df_columns ABCD ∧
  (∀ n, df_lookup BCDA n = df_lookup ABCD n) ∧
  df_wf BCDA ∧ df_height BCDA = df_height ABCD.
Proof.
  split; [reflexivity|].
  apply (move_col_keeps_frame ABCD BCDA 0 9 ABCD_wf). reflexivity.
Defined.

(** X2.  The only exceptions that leave [move_col] are those of the two
    list methods, the IndexError of the pop and the OverflowError of an
    index that does not fit a machine word: selecting the reordered names
    never fails on a missing or a repeated column. *)
Theorem move_col_raises_only_index_errors (F : DataFrame)
    (from_index to_index : Z) (e : exn) :
  df_wf F →
  move_col F from_index to_index = Raise e →
  e = IndexError ∨ e = OverflowError.
Proof.
  intros Hwf Hmove.
  destruct (move_col_inv F from_index to_index Hwf)
    as [Hraise|[Hraise|(? & ? & ? & ? & _ & _ & Hok & _)]];
    [left|right|]; congruence.
Qed.

Lemma move_col_raises_only_index_errors_witness :
  move_col ABCD 4 0 = Raise IndexError ∧
  (IndexError = IndexError ∨ IndexError = OverflowError).
Proof.
  split; [reflexivity|].
  apply (move_col_raises_only_index_errors ABCD 4 0 IndexError ABCD_wf).
  reflexivity.
Defined.

(** X3.  On a frame without columns every move fails: with IndexError
    when [from_index] fits a machine word, with OverflowError when it does
    not. *)
Theorem move_col_empty (from_index to_index : Z) :
  move_col [] from_index to_index =
    Raise (if fits_ssize_t from_index then IndexError else OverflowError).
Proof.
  unfold move_col.
  destruct (list_pop_spec (df_columns []) from_index)
    as [[Hov ->]|[(Hov & _ & ->)|(_ & Hin & _)]]; simpl in *.
  - unfold index_overflows in Hov. apply andb_true_iff in Hov as [_ Hov].
    apply negb_true_iff in Hov. by rewrite Hov.
  - unfold index_overflows in Hov. simpl in Hov.
    apply negb_false_iff in Hov. by rewrite Hov.
  - lia.
Qed.

(** ** Column mover: indices outside [0 .. N-1] *)

Section py_list_indices.
Context {A : Type}.
Implicit Types (l : list A) (x : A) (i j : Z).

Lemma list_pop_negative l i :
  - Z.of_nat (length l) ≤ i < 0 →
  list_pop l i = list_pop l (i + Z.of_nat (length l)).
Proof.
  intros Hi. unfold list_pop.
  rewrite !index_overflows_near by lia. by zcases.
Qed.

Lemma list_insert_past_end l j x :
  index_overflows l j = false →
  Z.of_nat (length l) ≤ j → list_insert l j x = Ok (l ++ [x]).
Proof.
  intros Hfit Hj. unfold list_insert. rewrite Hfit. zcases.
  rewrite Z.min_r, Nat2Z.id by lia.
  by rewrite take_ge, drop_ge by lia.
Qed.

Lemma list_insert_before_start l j x :
  index_overflows l j = false →
  j ≤ - Z.of_nat (length l) → list_insert l j x = Ok (x :: l).
Proof.
  intros Hfit Hj. unfold list_insert. rewrite Hfit.
  destruct (Z.ltb_spec j 0) as [Hneg|Hpos].
  - rewrite Z.max_l by lia. done.
  - assert (j = 0) as -> by lia. rewrite Z.min_l by lia. done.
Qed.

Lemma list_insert_negative l j x :
  - Z.of_nat (length l) ≤ j < 0 →
  list_insert l j x = list_insert l (j + Z.of_nat (length l)) x.
Proof.
  intros Hj. unfold list_insert.
  rewrite !index_overflows_near by lia. zcases.
  by rewrite Z.max_r, Z.min_l by lia.
Qed.
End py_list_indices.

(** X4.  For a valid [from_index] and a [to_index] that fits a machine
    word, a [to_index] of N-1 or more puts the column last, one of -(N-1)
    or less puts it first, and a negative one in between counts from the
    end of the N-1 remaining columns: it moves the column where
    [to_index + (N-1)] does. *)
Theorem move_col_to_index_clamped (F : DataFrame) (from_index to_index : Z) :
  df_wf F →
  0 ≤ from_index < Z.of_nat (length (df_columns F)) →
  fits_ssize_t to_index = true →
  ∃ name,
    df_columns F !! Z.to_nat from_index = Some name ∧
    (Z.of_nat (length (df_columns F)) - 1 ≤ to_index →
     df_columns <$> move_col F from_index to_index =
       Ok (delete (Z.to_nat from_index) (df_columns F) ++ [name])) ∧
    (to_index ≤ - (Z.of_nat (length (df_columns F)) - 1) →
     df_columns <$> move_col F from_index to_index =
       Ok (name :: delete (Z.to_nat from_index) (df_columns F))) ∧
    (- (Z.of_nat (length (df_columns F)) - 1) ≤ to_index < 0 →
     move_col F from_index to_index =
       move_col F from_index (to_index + (Z.of_nat (length (df_columns F)) - 1))).
Proof.
  intros Hwf Hfrom Hfit.
  destruct (lookup_lt_is_Some_2 (df_columns F) (Z.to_nat from_index))
    as [name Hname]; [lia|].
  pose proof (list_pop_in_range _ _ _ (proj1 Hfrom) Hname) as Hpop.
  set (rest := delete (Z.to_nat from_index) (df_columns F)) in *.
  assert (Z.of_nat (length rest) = Z.of_nat (length (df_columns F)) - 1) as Hlen.
  { unfold rest. rewrite length_delete by eauto. lia. }
  pose proof (index_overflows_fits rest to_index Hfit) as Hov.
  exists name. split; [done|].
  split; [|split].
  - intros Hto.
    pose proof (list_insert_past_end rest to_index name Hov ltac:(lia)) as Hins.
    destruct (move_col_popped F _ to_index _ _ _ Hwf Hpop Hins)
      as (F' & -> & Hcols & _).
    csimpl. fold (df_columns F'). by rewrite Hcols.
  - intros Hto.
    pose proof (list_insert_before_start rest to_index name Hov ltac:(lia)) as Hins.
    destruct (move_col_popped F _ to_index _ _ _ Hwf Hpop Hins)
      as (F' & -> & Hcols & _).
    csimpl. fold (df_columns F'). by rewrite Hcols.
  - intros Hto. unfold move_col. rewrite Hpop. csimpl.
    rewrite (list_insert_negative rest to_index) by lia. by rewrite Hlen.
Qed.

Lemma move_col_to_index_clamped_witness :
  ∃ name,
    df_columns ABCD !! Z.to_nat 1 = Some name ∧
    (Z.of_nat (length (df_columns ABCD)) - 1 ≤ 7 →
     df_columns <$> move_col ABCD 1 7 =
       Ok (delete (Z.to_nat 1) (df_columns ABCD) ++ [name])) ∧
    (7 ≤ - (Z.of_nat (length (df_columns ABCD)) - 1) →
     df_columns <$> move_col ABCD 1 7 =
       Ok (name :: delete (Z.to_nat 1) (df_columns ABCD))) ∧
    (- (Z.of_nat (length (df_columns ABCD)) - 1) ≤ 7 < 0 →
     move_col ABCD 1 7 =
       move_col ABCD 1 (7 + (Z.of_nat (length (df_columns ABCD)) - 1))).
Proof.
  apply (move_col_to_index_clamped ABCD 1 7 ABCD_wf); [simpl; lia | reflexivity].
Defined.

(** X5.  A negative [from_index] down to -N counts from the last column:
    the move is the one of [from_index + N]. *)
Theorem move_col_from_index_negative (F : DataFrame) (from_index to_index : Z) :
  - Z.of_nat (length (df_columns F)) ≤ from_index < 0 →
  move_col F from_index to_index =
    move_col F (from_index + Z.of_nat (length (df_columns F))) to_index.
Proof.
  intros Hfrom. unfold move_col. by rewrite (list_pop_negative _ from_index).
Qed.

Lemma move_col_from_index_negative_witness :
  move_col ABCD (-1) 0 = move_col ABCD (-1 + Z.of_nat (length (df_columns ABCD))) 0.
Proof. apply move_col_from_index_negative. simpl. lia. Defined.

(** X6.  Moving a column to the index it already has gives the frame
    back unchanged. *)
Theorem move_col_same_index (F : DataFrame) (i : Z) :
  df_wf F →
  0 ≤ i < Z.of_nat (length (df_columns F)) →
  move_col F i i = Ok F.
Proof.
  intros Hwf Hi.
  destruct (lookup_lt_is_Some_2 (df_columns F) (Z.to_nat i)) as [name Hname]; [lia|].
  unfold move_col. rewrite (list_pop_in_range _ _ _ (proj1 Hi) Hname). csimpl.
  rewrite list_insert_in_range by (rewrite length_delete by eauto; lia). csimpl.
  rewrite take_insert_delete by done. by apply df_select_self.
Qed.

Lemma move_col_same_index_witness : move_col ABCD 2 2 = Ok ABCD.
Proof. apply (move_col_same_index ABCD 2 ABCD_wf). simpl. lia. Defined.

(** X7.  Two moves of the same column compose: moving the column at [i]
    to [j] and then the column at [j] to [k] is moving the column at [i] to
    [k] at once. *)
Theorem move_col_compose (F : DataFrame) (i j k : Z) :
  df_wf F →
  0 ≤ i < Z.of_nat (length (df_columns F)) →
  0 ≤ j < Z.of_nat (length (df_columns F)) →
  ∃ F', move_col F i j = Ok F' ∧ move_col F' j k = move_col F i k.
Proof.
  intros Hwf Hi Hj.
  destruct (lookup_lt_is_Some_2 (df_columns F) (Z.to_nat i))
    as [name Hname]; [lia|].
  pose proof (list_pop_in_range _ _ _ (proj1 Hi) Hname) as Hpop.
  set (rest := delete (Z.to_nat i) (df_columns F)) in *.
  assert (length rest = (length (df_columns F) - 1)%nat) as Hlen
    by (unfold rest; rewrite length_delete by eauto; lia).
  pose proof (list_insert_in_range rest j name) as Hins.
  destruct (move_col_popped F _ j _ _ _ Hwf Hpop (Hins ltac:(lia)))
    as (F' & Hmove & Hcols & Hdata & Hwf').
  exists F'. split; [done|].
  assert (list_pop (df_columns F') j = Ok (name, rest)) as Hpop'.
  { rewrite Hcols, (list_pop_in_range _ j name);
      [|lia|apply lookup_take_insert; lia].
    by rewrite delete_take_insert by lia. }
  unfold move_col. rewrite Hpop', Hpop. csimpl.
  destruct (list_insert rest k name) as [cols|e]; [|done]. csimpl.
  unfold df_select. destruct (decide (NoDup _)); [|done].
  by apply select_columns_ext.
Qed.

Lemma move_col_compose_witness :
  ∃ F', move_col ABCD 0 2 = Ok F' ∧ move_col F' 2 (-1) = move_col ABCD 0 (-1).
Proof. apply (move_col_compose ABCD 0 2 (-1) ABCD_wf); simpl; lia. Defined.

(** ** Column mapper: running a mapping again *)

Lemma map_col_dict_no_source (F : DataFrame) a b D dflt :
  df_lookup F a = None →
  map_col F (Name a) (Name b) (Dict D) dflt = Exec [] (Raise ColumnNotFoundError).
Proof.
  intros Hcol. unfold map_col, _map_col_dict. simpl.
  rewrite with_columns_alias. simpl.
  unfold named_column, df_get_column. by rewrite Hcol.
Qed.

Lemma assoc_set_twice d n c c' :
  assoc_set (assoc_set d n c) n c' = assoc_set d n c'.
Proof.
  induction d as [|[n0 c0] d IH]; cbn [assoc_set].
  - by rewrite decide_True.
  - destruct (decide (n0 = n)) as [->|Hne]; cbn [assoc_set].
    + by rewrite decide_True.
    + by rewrite decide_False, IH.
Qed.

(** X9.  With a plain source name and a target name other than the
    source name, a dictionary mapping that succeeds can be run again on its
    own result without changing anything: the second call returns the frame
    the first one returned. *)
Theorem map_col_dict_again (F F' : DataFrame) (a b : string)
    (D : gmap pyval pyval) (dflt : pyval) :
  plain_name a = true →
  a ≠ b →
  outcome (map_col F (Name a) (Name b) (Dict D) dflt) = Ok (Frame F') →
  outcome (map_col F' (Name a) (Name b) (Dict D) dflt) = Ok (Frame F').
Proof.
  intros _ Hab Hfirst.
  destruct (df_lookup F a) as [col|] eqn:Hcol.
  - rewrite (map_col_dict_run _ _ _ _ _ _ Hcol) in Hfirst. simpl in Hfirst.
    injection Hfirst as <-.
    rewrite (map_col_dict_run _ a b D dflt col).
    + simpl. by rewrite assoc_set_twice.
    + by rewrite assoc_set_lookup_ne.
  - by rewrite (map_col_dict_no_source _ _ _ _ _ Hcol) in Hfirst.
Qed.

Lemma map_col_dict_again_witness :
  outcome (map_col [("b", [VInt 10; VInt 0]); ("a", [VInt 1; VInt 5])]
             (Name "a") (Name "b") (Dict ten) (VInt 0)) =
    Ok (Frame [("b", [VInt 10; VInt 0]); ("a", [VInt 1; VInt 5])]).
Proof.
  apply (map_col_dict_again BA _ "a" "b" ten (VInt 0)); [reflexivity|done|].
  by vm_compute.
Defined.

(** ** Column mapper: one column to one column, the other columns *)



(** ** Column mapper: one column to several, edge cases *)

(** X11.  In 1-to-N mode with an empty list of target names, on a frame
    whose source column has a cell that is not null, the frame is returned
    as it is; the function has been called on every cell that is not null
    all the same, in row order. *)
Theorem map_col_1ton_no_target (F : DataFrame) (a : string)
    (f : pyval → pyval) (dflt : pyval) (col : list pyval) :
  df_lookup F a = Some col →
  Exists (λ v, v ≠ VNone) col →
  map_col F (Name a) (Names []) (Callable f) dflt =
    Exec (map Call (filter (λ v, v ≠ VNone) col)) (Ok (Frame F)).
Proof.
  intros Hcol Hsome.
  rewrite (map_col_1ton_run _ _ _ _ _ _ Hcol (forallb_is_null_false _ Hsome)).
  simpl. unfold fmap, exec_fmap. simpl. rewrite app_nil_r. f_equal.
  unfold calls. f_equal. apply list_filter_iff. intros v. by destruct v.
Qed.

Lemma map_col_1ton_no_target_witness :
  map_col with_null (Name "a") (Names []) (Callable seven) VNone =
    Exec (map Call (filter (λ v, v ≠ VNone) [VInt 1; VNone])) (Ok (Frame with_null)).
Proof.
  apply (map_col_1ton_no_target with_null "a" seven VNone [VInt 1; VNone]).
  - reflexivity.
  - by left.
Defined.

Lemma mapM_getitem_raises (pre post : list pyval) (x : pyval) (i : nat) (e : exn) :
  Forall (λ res, is_seq res ∧ (i < seq_length res)%nat) pre →
  getitem x i = Raise e →
  mapM (λ res, getitem res i) (pre ++ x :: post) = Raise e.
Proof.
  intros Hpre Hx. induction Hpre as [|res pre [Hseq Hlen] _ IH]; cbn [app mapM].
  - by rewrite Hx.
  - rewrite IH. destruct res as [| | |l|]; try done. simpl in *.
    by destruct (lookup_lt_is_Some_2 l i Hlen) as [y ->].
Qed.

(** The results up to a null row, as they are stored. *)
Lemma conform_up_to_null (pre post : list pyval) :
  Forall is_seq pre →
  ∃ post', conform (pre ++ VNone :: post) = pre ++ VNone :: post'.
Proof.
  intros Hpre. destruct Hpre as [|res pre Hres Hpre].
  - unfold conform, inferred_dtype. cbn [app filter list_filter].
    rewrite decide_False by done.
    destruct (filter _ post) as [|[| | | |] ?]; simpl; by eexists.
  - exists post. by apply (conform_seq res).
Qed.

(** X12.  The 1-to-N mode cannot take a null: with at least one target
    name, if a source cell is null (and not all are) and the function
    returns a sequence that is not empty for every row before it, the call
    fails with TypeError (the null row has the result [None], which cannot
    be indexed), after the function has been called on the cells that are
    not null. *)
Theorem map_col_1ton_null (F : DataFrame) (a name : string) (names : list string)
    (f : pyval → pyval) (dflt : pyval) (pre post : list pyval) :
  df_lookup F a = Some (pre ++ VNone :: post) →
  Exists (λ v, v ≠ VNone) (pre ++ post) →
  Forall (λ v, is_seq (apply_elem f v) ∧ (0 < seq_length (apply_elem f v))%nat) pre →
  map_col F (Name a) (Names (name :: names)) (Callable f) dflt =
    Exec (calls (pre ++ VNone :: post)) (Raise TypeError).
Proof.
  intros Hcol Hsome Hpre.
  rewrite (map_col_1ton_run _ _ _ _ _ _ Hcol).
  2:{ apply forallb_is_null_false. apply Exists_app in Hsome as [Hsome|Hsome].
      - apply Exists_app. by left.
      - apply Exists_app. right. by apply Exists_cons_tl. }
  cbn [length seq new_columns_from lookup list_lookup].
  unfold apply_column. rewrite map_app. cbn [map apply_elem].
  destruct (conform_up_to_null (map (apply_elem f) pre) (map (apply_elem f) post))
    as [post' ->].
  { apply Forall_fmap. eapply Forall_impl; [exact Hpre|]. by intros v [? _]. }
  rewrite (mapM_getitem_raises _ _ VNone 0 TypeError); [done| |done].
  by apply Forall_fmap.
Qed.

Lemma map_col_1ton_null_witness :
  map_col with_null (Name "a") (Names ["y"; "z"]) (Callable thrice) VNone =
    Exec (calls ([VInt 1] ++ VNone :: [])) (Raise TypeError).
Proof.
  apply (map_col_1ton_null with_null "a" "y" ["z"] thrice VNone [VInt 1] []).
  - reflexivity.
  - by left.
  - repeat constructor.
Defined.






(** ** Column mapper: several columns to one *)

Lemma mapM_named_column (df : DataFrame) names :
  mapM (named_column df) names = select_columns df names.
Proof.
  induction names as [|n names IH]; [done|]. cbn [mapM select_columns].
  rewrite IH. unfold named_column. destruct (df_get_column df n); [|done].
  simpl. by destruct (select_columns df names).
Qed.

Lemma pack_rows_df_row (df sel : DataFrame) h :
  columns_of df sel →
  pack_rows sel.*1 sel.*2 h = map (λ r, VStruct sel.*1 (df_row df sel.*1 r)) (seq 0 h).
Proof.
  intros Hsel. unfold pack_rows. apply map_ext. intros r. f_equal.
  unfold df_row. induction Hsel as [|[n c] sel Hc _ IH]; [done|].
  csimpl in *. rewrite Hc. csimpl. by rewrite IH.
Qed.

Lemma calls_records (names : list string) (g : nat → list pyval) (rs : list nat) :
  calls (map (λ r, VStruct names (g r)) rs) = map (λ r, Call (VStruct names (g r))) rs.
Proof.
  unfold calls. induction rs as [|r rs IH]; [done|]. cbn [map].
  rewrite filter_cons_True by done. cbn [map]. by rewrite IH.
Qed.

Lemma apply_records (f : pyval → pyval) (names : list string)
    (g : nat → list pyval) (rs : list nat) :
  map (apply_elem f) (map (λ r, VStruct names (g r)) rs) =
    map (λ r, f (VStruct names (g r))) rs.
Proof. by rewrite map_map. Qed.

Lemma records_not_all_null (names : list string) (g : nat → list pyval) (h : nat) :
  (0 < h)%nat →
  forallb is_null (map (λ r, VStruct names (g r)) (seq 0 h)) = false.
Proof. intros Hh. destruct h as [|h]; [lia|done]. Qed.

Lemma map_col_nto1_run (F : DataFrame) names b f dflt sel :
  names ≠ [] → NoDup names → (0 < df_height F)%nat →
  select_columns F names = Ok sel → sel.*1 = names → columns_of F sel →
  map_col F (Names names) (Name b) (Callable f) dflt =
    Exec (map (λ r, Call (VStruct names (df_row F names r))) (seq 0 (df_height F)))
      (Ok (Frame (assoc_set F b
            (conform (map (λ r, f (VStruct names (df_row F names r)))
                        (seq 0 (df_height F))))))).
Proof.
  intros Hne Hnd Hrows Hsel Hnames Hcols.
  unfold map_col, _map_nto1_function. simpl.
  rewrite with_columns_alias. cbn [eval].
  destruct names as [|first names']; [done|].
  rewrite decide_True by done.
  rewrite mapM_named_column, Hsel.
  unfold lift, mbind, exec_bind. cbn [outcome trace mret exec_ret].
  cbn [fmap list_fmap snd forallb].
  pose proof (pack_rows_df_row F sel (df_height F) Hcols) as Hpack.
  rewrite Hnames in Hpack. rewrite !Hpack.
  rewrite records_not_all_null by done. cbn [negb andb].
  unfold tell, fmap, exec_fmap, apply_column. simpl.
  rewrite calls_records, apply_records, !app_nil_r. reflexivity.
Qed.

(** X14.  In M-to-1 mode, for distinct plain source names that are all
    columns of a frame with at least one row, each of these columns holding
    cells of one data type and no null, and a function whose results on the
    rows all have one data type (64-bit integers, or strings): the function
    is called once per row, in row order, on the record of that row's cells
    in the source columns (in the order of the list), and the target column
    holds its results, one per row; the other columns are unchanged. *)
Theorem map_col_nto1_column (F : DataFrame) (names : list string) (b : string)
    (f : pyval → pyval) (dflt : pyval) (t : dtype) :
  df_wf F →
  names ≠ [] →
  NoDup names →
  (∀ n, n ∈ names → plain_name n = true) →
  (∀ n, n ∈ names → n ∈ df_columns F) →
  (0 < df_height F)%nat →
  (∀ n c, n ∈ names → df_lookup F n = Some c → ∃ t0, Forall (has_dtype t0) c) →
  (∀ r, (r < df_height F)%nat →
     has_dtype t (f (VStruct names (df_row F names r)))) →
  ∃ F' new,
    map_col F (Names names) (Name b) (Callable f) dflt =
      Exec (map (λ r, Call (VStruct names (df_row F names r))) (seq 0 (df_height F)))
        (Ok (Frame F')) ∧
    df_lookup F' b = Some new ∧
    length new = df_height F ∧
    (∀ r, (r < df_height F)%nat →
       new !! r = Some (f (VStruct names (df_row F names r))) ∧
       ∀ k n c, names !! k = Some n → df_lookup F n = Some c →
                df_row F names r !! k = c !! r) ∧
    (∀ n, n ≠ b → df_lookup F' n = df_lookup F n).
Proof.
  intros Hwf Hne Hnd _ Hin Hrows _ Hres.
  destruct (select_columns_ok F names) as (sel & Hsel & Hnames & Hcols).
  { intros n Hn. by apply Hin. }
  rewrite (map_col_nto1_run F names b f dflt sel) by done.
  rewrite (conform_typed t).
  2:{ apply Forall_forall. intros v [r [-> Hr]]%list_elem_of_fmap.
      right. apply Hres. apply elem_of_seq in Hr. lia. }
  eexists _, _. split; [done|].
  split; [apply assoc_set_lookup_eq|].
  split; [by rewrite length_map, length_seq|].
  split.
  - intros r Hr. split.
    + rewrite list_lookup_fmap, lookup_seq_lt by done. done.
    + intros k n c Hk Hc. unfold df_row.
      assert (∀ c' : list pyval, length c' = df_height F → is_Some (c' !! r)) as Hsome.
      { intros c' Hc'. apply lookup_lt_is_Some. lia. }
      clear Hsel Hnames Hcols Hne Hnd Hres.
      revert k Hk. induction names as [|m names IH]; intros k Hk; [done|].
      destruct (proj2 (df_lookup_is_Some F m)) as [cm Hcm];
        [apply Hin; apply list_elem_of_here|].
      destruct (Hsome cm) as [x Hx];
        [by destruct (df_lookup_height _ _ _ Hwf Hcm)|].
      cbn [omap list_omap]. rewrite Hcm. csimpl. rewrite Hx.
      destruct k as [|k]; simpl in Hk.
      * injection Hk as ->. rewrite Hcm in Hc. injection Hc as <-. by rewrite Hx.
      * apply IH; [|done]. intros n' Hn'. apply Hin. by apply list_elem_of_further.
  - intros n Hn. by apply assoc_set_lookup_ne.
Qed.

Lemma A_B_wf : df_wf A_B.
Proof.
  apply (df_wf_intro _ 2%nat); [|by repeat constructor].
  apply (bool_decide_unpack (NoDup _)). by vm_compute.
Qed.

Lemma map_col_nto1_column_witness :
  ∃ F' new,
    map_col A_B (Names ["a"; "b"]) (Name "c") (Callable sum_fields) VNone =
      Exec (map (λ r, Call (VStruct ["a"; "b"] (df_row A_B ["a"; "b"] r)))
              (seq 0 (df_height A_B)))
        (Ok (Frame F')) ∧
    df_lookup F' "c" = Some new ∧
    length new = df_height A_B ∧
    (∀ r, (r < df_height A_B)%nat →
       new !! r = Some (sum_fields (VStruct ["a"; "b"] (df_row A_B ["a"; "b"] r))) ∧
       ∀ k n c, ["a"; "b"] !! k = Some n → df_lookup A_B n = Some c →
                df_row A_B ["a"; "b"] r !! k = c !! r) ∧
    (∀ n, n ≠ "c" → df_lookup F' n = df_lookup A_B n).
Proof.
  apply (map_col_nto1_column A_B ["a"; "b"] "c" sum_fields VNone Int64 A_B_wf).
  - done.
  - apply (bool_decide_unpack (NoDup _)). by vm_compute.
  - intros n Hn. apply elem_of_cons in Hn as [->|Hn]; [done|].
    by apply list_elem_of_singleton in Hn as ->.
  - intros n Hn. apply elem_of_cons in Hn as [->|Hn]; [by left|].
    apply list_elem_of_singleton in Hn as ->. right. by left.
  - simpl. lia.
  - intros n c Hn Hc. exists Int64.
    apply elem_of_cons in Hn as [->|Hn].
    + injection Hc as <-. by repeat constructor.
    + apply list_elem_of_singleton in Hn as ->. injection Hc as <-.
      by repeat constructor.
  - intros r Hr. simpl in Hr.
    destruct r as [|[|r]]; [done|done|lia].
Defined.
